(** * Verification of the action protocol layer of phone_agent

    Shallow embedding of [src/phone_agent/actions/handler.py]: the
    coordinate conversion [ActionHandler._convert_relative_to_absolute],
    the dispatcher [ActionHandler.execute] with its handlers, and the
    text parser [parse_action].

    Python data is modelled as it is at run time: text is a list of Unicode
    code points, [float] is IEEE-754 binary64 with round-half-even, a dict is
    an association list in insertion order, and an exception is a value of
    [exn].  Device primitives and the confirmation / takeover callbacks are
    injected collaborators (the module [phone_agent.adb] is outside the
    repository's core), so they are parameters of the dispatcher. *)

From Stdlib Require Import ZArith List String Ascii Bool Lia QArith.
Import ListNotations.
Open Scope Z_scope.
Set Warnings "-register-all".

(** ** Python text *)

(** A Python [str]: the list of its code points. *)
Definition pystr := list Z.

(** Decoding of UTF-8 bytes, used only to write Python literals (which may
    contain Chinese text) as Rocq string literals. *)
Fixpoint utf8_dec (l : list Z) : list Z :=
  match l with
  | [] => []
  | b :: r =>
    if b <? 128 then b :: utf8_dec r
    else if b <? 224 then
      match r with
      | b2 :: r2 => ((b - 192) * 64 + (b2 - 128)) :: utf8_dec r2
      | [] => []
      end
    else if b <? 240 then
      match r with
      | b2 :: b3 :: r3 =>
        ((b - 224) * 4096 + (b2 - 128) * 64 + (b3 - 128)) :: utf8_dec r3
      | _ => []
      end
    else
      match r with
      | b2 :: b3 :: b4 :: r4 =>
        ((b - 240) * 262144 + (b2 - 128) * 4096 + (b3 - 128) * 64 + (b4 - 128))
          :: utf8_dec r4
      | _ => []
      end
  end.

Definition u (s : string) : pystr :=
  utf8_dec (map (fun a => Z.of_nat (nat_of_ascii a)) (list_ascii_of_string s)).

Definition ch (s : string) : Z :=
  match u s with c :: _ => c | [] => 0 end.

Fixpoint str_eqb (a b : pystr) : bool :=
  match a, b with
  | [], [] => true
  | x :: a', y :: b' => (x =? y) && str_eqb a' b'
  | _, _ => false
  end.

(** [s.startswith(p)] *)
Fixpoint startswith (s p : pystr) : bool :=
  match p, s with
  | [], _ => true
  | c :: p', d :: s' => (c =? d) && startswith s' p'
  | _ :: _, [] => false
  end.

(** [p in s] for two strings *)
Fixpoint contains (s p : pystr) : bool :=
  startswith s p || match s with [] => false | _ :: s' => contains s' p end.

(** [s.replace(old, new)] with a non-empty [old] *)
Fixpoint replace_fuel (fuel : nat) (old new s : pystr) : pystr :=
  match fuel with
  | O => s
  | S f =>
    match s with
    | [] => []
    | c :: s' =>
      if startswith s old
      then new ++ replace_fuel f old new (skipn (List.length old) s)
      else c :: replace_fuel f old new s'
    end
  end.

Definition replace (s old new : pystr) : pystr :=
  replace_fuel (S (List.length s)) old new s.

(** [str.isspace] for one code point (Python's Unicode whitespace). *)
Definition is_space (c : Z) : bool :=
  ((9 <=? c) && (c <=? 13)) || ((28 <=? c) && (c <=? 32)) || (c =? 133) ||
  (c =? 160) || (c =? 5760) || ((8192 <=? c) && (c <=? 8202)) ||
  (c =? 8232) || (c =? 8233) || (c =? 8239) || (c =? 8287) || (c =? 12288).

Fixpoint lstrip (s : pystr) : pystr :=
  match s with
  | c :: s' => if is_space c then lstrip s' else s
  | [] => []
  end.

(** [s.strip()] *)
Definition strip (s : pystr) : pystr := rev (lstrip (rev (lstrip s))).

(** [s.split(sep)] for a one-character separator *)
Fixpoint split_on (sep : Z) (s : pystr) : list pystr :=
  match s with
  | [] => [[]]
  | c :: s' =>
    if c =? sep then [] :: split_on sep s'
    else match split_on sep s' with
         | w :: ws => (c :: w) :: ws
         | [] => [[c]]
         end
  end.

(** [s.lower()]: only ASCII letters change case here; the words the code
    looks for ([wait], [loading]) have no non-ASCII upper-case form that
    lowers to them. *)
Definition lower (s : pystr) : pystr :=
  map (fun c => if (65 <=? c) && (c <=? 90) then c + 32 else c) s.

Definition is_digit (c : Z) : bool := (48 <=? c) && (c <=? 57).

(** ** Python floats: IEEE-754 binary64 *)

Definition Qltb (x y : Q) : bool := negb (Qle_bool y x).

Inductive flt := Fin (q : Q) | PInf | NInf | NaN.

(** nearest integer to [N / D] ([D > 0]), ties to even *)
Definition round_ne (N D : Z) : Z :=
  let q := N / D in
  let r := N mod D in
  match Z.compare (2 * r) D with
  | Lt => q
  | Gt => q + 1
  | Eq => if Z.even q then q else q + 1
  end.

(** [n / d] scaled by [2^-e], as a numerator / denominator pair *)
Definition scaled (n d e : Z) : Z * Z :=
  if e <=? 0 then (n * 2 ^ (- e), d) else (n, d * 2 ^ e).

Definition pow2q (e : Z) : Q :=
  if 0 <=? e then inject_Z (2 ^ e) else 1 # Z.to_pos (2 ^ (- e)).

(** the exponent of the unit in the last place of [n / d] ([n, d > 0]) *)
Definition ulp_exp (n d : Z) : Z :=
  let e0 := Z.log2 n - Z.log2 d - 52 in
  let (N, D) := scaled n d e0 in
  Z.max (if N <? 2 ^ 52 * D then e0 - 1 else e0) (-1074).

(** rounding of the positive rational [n / d] *)
Definition fl_pos (n d : Z) : flt :=
  let e := ulp_exp n d in
  let (N, D) := scaled n d e in
  let m := round_ne N D in
  if (1024 - e <? 0) || (2 ^ (1024 - e) <=? m) then PInf
  else Fin (inject_Z m * pow2q e).

Definition fneg (f : flt) : flt :=
  match f with
  | Fin q => Fin (- q) | PInf => NInf | NInf => PInf | NaN => NaN
  end.

(** rounding of a rational to the nearest double (the sign of zero is not
    tracked: [int()] and comparisons, the only consumers here, ignore it) *)
Definition round_q (q : Q) : flt :=
  let n := Qnum q in
  let d := Z.pos (Qden q) in
  if n =? 0 then Fin 0
  else if 0 <? n then fl_pos n d
  else fneg (fl_pos (- n) d).

(** ** Python values and exceptions *)

Inductive pyval :=
| PNone
| PBool (b : bool)
| PInt (z : Z)
| PFloat (f : flt)
| PStr (s : pystr)
| PList (l : list pyval)
| PTuple (l : list pyval)
| PDict (kv : list (pystr * pyval)).

(** Pieces of an f-string message: literal text, or a value rendered with
    [str()] when the message is printed. *)
Inductive part := Lit (s : pystr) | Val (v : pyval).
Definition msg := list part.

(** Exceptions.  [BaseSignal] stands for the [BaseException] subclasses that
    do not derive from [Exception] ([KeyboardInterrupt], [SystemExit]). *)
Inductive exn :=
| ValueError (m : msg)
| TypeError (m : msg)
| OverflowError (m : msg)
| ZeroDivisionError (m : msg)
| NameError (m : msg)
| SyntaxError (m : msg)
| OtherError (name : pystr) (m : msg)
| BaseSignal (name : pystr).

Definition is_Exception (e : exn) : bool :=
  match e with BaseSignal _ => false | _ => true end.

(** [str(e)] *)
Definition exn_msg (e : exn) : msg :=
  match e with
  | ValueError m | TypeError m | OverflowError m | ZeroDivisionError m
  | NameError m | SyntaxError m | OtherError _ m => m
  | BaseSignal _ => []
  end.

(** A computation that returns a value or raises. *)
Inductive res (A : Type) := Ok (a : A) | Raise (e : exn).
Arguments Ok {A} a.
Arguments Raise {A} e.

Definition rbind {A B} (m : res A) (k : A -> res B) : res B :=
  match m with Ok a => k a | Raise e => Raise e end.

Notation "x <- m ;; k" := (rbind m (fun x => k))
  (at level 61, m at next level, right associativity).

(** ** Float operations as Python performs them *)

Definition int_too_large : exn :=
  OverflowError [Lit (u "int too large to convert to float")].

(** [float(z)] for an [int] *)
Definition float_of_int (z : Z) : res flt :=
  match round_q (inject_Z z) with
  | Fin q => Ok (Fin q)
  | _ => Raise int_too_large
  end.

Definition fmul (a b : flt) : flt :=
  match a, b with
  | Fin x, Fin y => round_q (x * y)
  | NaN, _ | _, NaN => NaN
  | Fin x, i | i, Fin x =>
    if Qeq_bool x 0 then NaN else if Qltb x 0 then fneg i else i
  | PInf, PInf | NInf, NInf => PInf
  | _, _ => NInf
  end.

Definition fdiv (a b : flt) : res flt :=
  match a, b with
  | _, Fin y =>
    if Qeq_bool y 0 then Raise (ZeroDivisionError [Lit (u "float division by zero")])
    else match a with
         | Fin x => Ok (round_q (x / y))
         | NaN => Ok NaN
         | i => Ok (if Qltb y 0 then fneg i else i)
         end
  | NaN, _ | _, NaN => Ok NaN
  | Fin _, _ => Ok (Fin 0)
  | _, _ => Ok NaN
  end.

(** [int(f)] for a float: truncation toward zero *)
Definition int_of_float (f : flt) : res Z :=
  match f with
  | Fin q => Ok (Z.quot (Qnum q) (Z.pos (Qden q)))
  | PInf | NInf =>
    Raise (OverflowError [Lit (u "cannot convert float infinity to integer")])
  | NaN => Raise (ValueError [Lit (u "cannot convert float NaN to integer")])
  end.

(** [z < f] for an [int] and a [float] (Python compares exactly) *)
Definition int_lt_float (z : Z) (f : flt) : bool :=
  match f with
  | Fin q => Qltb (inject_Z z) q
  | PInf => true
  | _ => false
  end.

(** the double literal [0.15] *)
Definition c015 : flt := round_q (15 # 100).

(** the double literal [0.1] *)
Definition c01 : flt := round_q (1 # 10).

(** ** Number syntax shared by [int()], [float()] and [json] *)

Definition digit_val (c : Z) : Z := c - 48.

Definition digits_value (ds : list Z) : Z :=
  fold_left (fun acc d => acc * 10 + d) ds 0.

(** maximal prefix of ASCII digits, as digit values *)
Fixpoint digits_span (s : pystr) : list Z * pystr :=
  match s with
  | c :: s' =>
    if is_digit c then let (ds, r) := digits_span s' in (digit_val c :: ds, r)
    else ([], s)
  | [] => ([], [])
  end.

(** digits after a first digit, with single underscores allowed between
    digits, up to the end of the text (PEP 515 grouping) *)
Fixpoint udigits_tail (s : pystr) : option (list Z) :=
  match s with
  | [] => Some []
  | c :: s' =>
    if is_digit c then option_map (cons (digit_val c)) (udigits_tail s')
    else if c =? 95 then
      match s' with
      | d :: s'' =>
        if is_digit d then option_map (cons (digit_val d)) (udigits_tail s'')
        else None
      | [] => None
      end
    else None
  end.

Definition udigits (s : pystr) : option (list Z) :=
  match s with
  | c :: s' =>
    if is_digit c then option_map (cons (digit_val c)) (udigits_tail s') else None
  | [] => None
  end.

(** optional sign *)
Definition take_sign (s : pystr) : bool * pystr :=
  match s with
  | c :: s' => if c =? 45 then (true, s') else if c =? 43 then (false, s') else (false, s)
  | [] => (false, [])
  end.

Definition apply_sign (neg : bool) (z : Z) : Z := if neg then - z else z.

(** [int(s)] for a [str] in base 10 (ASCII digits; Python also accepts the
    other Unicode decimal digits, which no input here contains). *)
Definition int_of_str (s : pystr) : res Z :=
  let (neg, body) := take_sign (strip s) in
  match udigits body with
  | Some ds => Ok (apply_sign neg (digits_value ds))
  | None =>
    Raise (ValueError [Lit (u "invalid literal for int() with base 10: "); Val (PStr s)])
  end.

(** the rational [m * 10^k] *)
Definition dec_q (m k : Z) : Q :=
  if 0 <=? k then inject_Z (m * 10 ^ k) else m # Z.to_pos (10 ^ (- k)).

(** first position of a code point satisfying [p] *)
Fixpoint break_at (p : Z -> bool) (s : pystr) : pystr * option pystr :=
  match s with
  | [] => ([], None)
  | c :: s' =>
    if p c then ([], Some s')
    else let (a, b) := break_at p s' in (c :: a, b)
  end.

Definition opt_udigits (s : pystr) : option (list Z) :=
  match s with [] => Some [] | _ => udigits s end.

(** the value of a decimal literal [digits[.digits][(e|E)[sign]digits]] *)
Definition decimal_literal (s : pystr) : option Q :=
  let (mant, ex) := break_at (fun c => (c =? 101) || (c =? 69)) s in
  let e := match ex with
           | None => Some 0
           | Some t => let (en, tb) := take_sign t in
                       option_map (fun ds => apply_sign en (digits_value ds)) (udigits tb)
           end in
  let (ip, fp) := break_at (fun c => c =? 46) mant in
  match e, opt_udigits ip, (match fp with None => Some [] | Some f => opt_udigits f end) with
  | Some e, Some is, Some fs =>
    match is, fs, fp with
    | [], [], _ => None
    | _, _, _ =>
      Some (dec_q (digits_value (is ++ fs)) (e - Z.of_nat (List.length fs)))
    end
  | _, _, _ => None
  end.

Definition ieq (s : pystr) (w : string) : bool := str_eqb (lower s) (u w).

(** [float(s)] for a [str] *)
Definition float_of_str (s : pystr) : res flt :=
  let (neg, body) := take_sign (strip s) in
  let sg f := if neg then fneg f else f in
  if ieq body "inf" || ieq body "infinity" then Ok (sg PInf)
  else if ieq body "nan" then Ok NaN
  else match decimal_literal body with
       | Some q => Ok (sg (round_q q))
       | None =>
         Raise (ValueError [Lit (u "could not convert string to float: "); Val (PStr s)])
       end.

(** [float(v)] *)
Definition to_float (v : pyval) : res flt :=
  match v with
  | PBool b => Ok (Fin (if b then 1 else 0))
  | PInt z => float_of_int z
  | PFloat f => Ok f
  | PStr s => float_of_str s
  | _ => Raise (TypeError [Lit (u "float() argument must be a string or a real number")])
  end.

(** ** [json.loads] (CPython's C scanner, [strict=True]) *)

Definition is_json_ws (c : Z) : bool := (c =? 32) || (c =? 9) || (c =? 10) || (c =? 13).

Fixpoint skip_ws (s : pystr) : pystr :=
  match s with
  | c :: s' => if is_json_ws c then skip_ws s' else s
  | [] => []
  end.

Definition hex_val (c : Z) : option Z :=
  if is_digit c then Some (c - 48)
  else if (97 <=? c) && (c <=? 102) then Some (c - 87)
  else if (65 <=? c) && (c <=? 70) then Some (c - 55)
  else None.

Definition hex4 (s : pystr) : option (Z * pystr) :=
  match s with
  | a :: b :: c :: d :: r =>
    match hex_val a, hex_val b, hex_val c, hex_val d with
    | Some a, Some b, Some c, Some d => Some (((a * 16 + b) * 16 + c) * 16 + d, r)
    | _, _, _, _ => None
    end
  | _ => None
  end.

Definition simple_escape (c : Z) : option Z :=
  if c =? 34 then Some 34 else if c =? 92 then Some 92
  else if c =? 47 then Some 47 else if c =? 98 then Some 8
  else if c =? 102 then Some 12 else if c =? 110 then Some 10
  else if c =? 114 then Some 13 else if c =? 116 then Some 9
  else None.

(** body of a string literal after its opening quote *)
Fixpoint json_string (fuel : nat) (s : pystr) : option (pystr * pystr) :=
  match fuel with
  | O => None
  | S f =>
    match s with
    | [] => None
    | c :: s' =>
      if c =? 34 then Some ([], s')
      else if c =? 92 then
        match s' with
        | [] => None
        | e :: s'' =>
          if e =? 117 then
            match hex4 s'' with
            | None => None
            | Some (h, r) =>
              let (cp, r') :=
                if (55296 <=? h) && (h <=? 56319) then
                  match r with
                  | 92 :: 117 :: r2 =>
                    match hex4 r2 with
                    | Some (l, r3) =>
                      if (56320 <=? l) && (l <=? 57343)
                      then (65536 + (h - 55296) * 1024 + (l - 56320), r3)
                      else (h, r)
                    | None => (h, r)
                    end
                  | _ => (h, r)
                  end
                else (h, r) in
              option_map (fun '(t, rest) => (cp :: t, rest)) (json_string f r')
            end
          else match simple_escape e with
               | Some c' => option_map (fun '(t, rest) => (c' :: t, rest)) (json_string f s'')
               | None => None
               end
        end
      else if c <? 32 then None
      else option_map (fun '(t, rest) => (c :: t, rest)) (json_string f s')
    end
  end.

(** a number; the literal's text decides [int] or [float].  CPython 3.11
    and later refuse to convert an integer literal of more than 4300 digits
    ([ValueError]); that limit is not part of this model, and statements
    that go through it bound their integers below [10 ^ 4300]. *)
Definition json_number (s : pystr) : option (pyval * pystr) :=
  let (neg, s1) := match s with 45 :: r => (true, r) | _ => (false, s) end in
  match s1 with
  | [] => None
  | c :: r =>
    let ip := if c =? 48 then Some ([0], r)
              else if is_digit c then let (ds, r') := digits_span r in Some (digit_val c :: ds, r')
              else None in
    match ip with
    | None => None
    | Some (is, r1) =>
      let '(fs, isf, r2) :=
        match r1 with
        | 46 :: d :: r' =>
          if is_digit d then let (ds, r'') := digits_span r' in (digit_val d :: ds, true, r'')
          else ([], false, r1)
        | _ => ([], false, r1)
        end in
      let '(ex, ise, r3) :=
        match r2 with
        | e :: r' =>
          if (e =? 101) || (e =? 69) then
            let (en, r'') := match r' with
                             | 45 :: t => (true, t) | 43 :: t => (false, t) | _ => (false, r') end in
            match digits_span r'' with
            | ([], _) => (0, false, r2)
            | (ds, t) => (apply_sign en (digits_value ds), true, t)
            end
          else (0, false, r2)
        | [] => (0, false, r2)
        end in
      if isf || ise then
        Some (PFloat (round_q (dec_q (apply_sign neg (digits_value (is ++ fs)))
                                     (ex - Z.of_nat (List.length fs)))), r3)
      else Some (PInt (apply_sign neg (digits_value is)), r3)
    end
  end.

(** [d[k] = v] on an insertion-ordered dict *)
Fixpoint dict_set (d : list (pystr * pyval)) (k : pystr) (v : pyval) : list (pystr * pyval) :=
  match d with
  | [] => [(k, v)]
  | (k', v') :: d' => if str_eqb k k' then (k', v) :: d' else (k', v') :: dict_set d' k v
  end.

(** [d.get(k)] *)
Fixpoint dget (d : list (pystr * pyval)) (k : pystr) : option pyval :=
  match d with
  | [] => None
  | (k', v) :: d' => if str_eqb k k' then Some v else dget d' k
  end.

(** one JSON value at the head of [s] (no leading whitespace) *)
Fixpoint json_value (fuel : nat) (s : pystr) : option (pyval * pystr) :=
  match fuel with
  | O => None
  | S f =>
    match s with
    | [] => None
    | c :: r =>
      if c =? 34 then option_map (fun '(t, rest) => (PStr t, rest)) (json_string (List.length r) r)
      else if c =? 123 then
        match skip_ws r with
        | 125 :: r' => Some (PDict [], r')
        | (34 :: _) as r' => json_members f [] r'
        | _ => None
        end
      else if c =? 91 then
        match skip_ws r with
        | 93 :: r' => Some (PList [], r')
        | r' => json_elements f [] r'
        end
      else if startswith s (u "null") then Some (PNone, skipn 4 s)
      else if startswith s (u "true") then Some (PBool true, skipn 4 s)
      else if startswith s (u "false") then Some (PBool false, skipn 5 s)
      else if startswith s (u "NaN") then Some (PFloat NaN, skipn 3 s)
      else if startswith s (u "Infinity") then Some (PFloat PInf, skipn 8 s)
      else if startswith s (u "-Infinity") then Some (PFloat NInf, skipn 9 s)
      else json_number s
    end
  end
(** array elements, [acc] reversed; [s] is at a value *)
with json_elements (fuel : nat) (acc : list pyval) (s : pystr) : option (pyval * pystr) :=
  match fuel with
  | O => None
  | S f =>
    match json_value f s with
    | None => None
    | Some (v, r) =>
      match skip_ws r with
      | 93 :: r' => Some (PList (rev (v :: acc)), r')
      | 44 :: r' => json_elements f (v :: acc) (skip_ws r')
      | _ => None
      end
    end
  end
(** object members, [acc] the dict so far; [s] is at a key's quote *)
with json_members (fuel : nat) (acc : list (pystr * pyval)) (s : pystr)
    : option (pyval * pystr) :=
  match fuel with
  | O => None
  | S f =>
    match s with
    | 34 :: r =>
      match json_string (List.length r) r with
      | None => None
      | Some (k, r1) =>
        match skip_ws r1 with
        | 58 :: r2 =>
          match json_value f (skip_ws r2) with
          | None => None
          | Some (v, r3) =>
            match skip_ws r3 with
            | 125 :: r4 => Some (PDict (dict_set acc k v), r4)
            | 44 :: r4 => json_members f (dict_set acc k v) (skip_ws r4)
            | _ => None
            end
          end
        | _ => None
        end
      end
    | _ => None
    end
  end.

(** [json.loads(s)]; a failure is a [json.JSONDecodeError] *)
Definition json_loads (s : pystr) : res pyval :=
  match json_value (S (List.length s)) (skip_ws s) with
  | Some (v, r) =>
    match skip_ws r with
    | [] => Ok v
    | _ => Raise (ValueError [Lit (u "Extra data")])
    end
  | None => Raise (ValueError [Lit (u "Expecting value")])
  end.

(** ** [ActionHandler._convert_relative_to_absolute] *)

Fixpoint map_res {A B} (f : A -> res B) (l : list A) : res (list B) :=
  match l with
  | [] => Ok []
  | a :: l' => b <- f a ;; bs <- map_res f l' ;; Ok (b :: bs)
  end.

(** the [str] branch: [json.loads], else strip brackets and split on commas *)
Definition decode_element (s : pystr) : res pyval :=
  match json_loads s with
  | Ok v => Ok v
  | Raise _ =>
    let cleaned := replace (replace s (u "[") []) (u "]") [] in
    let parts := split_on (ch ",") cleaned in
    match map_res (fun p => int_of_str (strip p)) parts with
    | Ok zs => Ok (PList (map PInt zs))
    | Raise _ => Raise (ValueError [Lit (u "Invalid element format: "); Val (PStr s)])
    end
  end.

(** [float(element[i])] with [ValueError] and [TypeError] re-raised as a
    [ValueError]; an [OverflowError] passes through *)
Definition coord_float (element : pyval) (v : pyval) : res flt :=
  match to_float v with
  | Ok f => Ok f
  | Raise (ValueError _) | Raise (TypeError _) =>
    Raise (ValueError [Lit (u "Element coordinates must be numbers, got "); Val element])
  | Raise e => Raise e
  end.

(** [int(rel / 1000 * size)] *)
Definition scale (rel : flt) (size : Z) : res Z :=
  a <- fdiv rel (Fin 1000) ;;
  s <- float_of_int size ;;
  int_of_float (fmul a s).

Definition convert_relative_to_absolute (element : pyval) (screen_width screen_height : Z)
    : res (Z * Z) :=
  e <- (match element with PStr s => decode_element s | _ => Ok element end) ;;
  match e with
  | PList (v0 :: v1 :: _) | PTuple (v0 :: v1 :: _) =>
    x_rel <- coord_float e v0 ;;
    y_rel <- coord_float e v1 ;;
    x <- scale x_rel screen_width ;;
    y <- scale y_rel screen_height ;;
    Ok (x, y)
  | _ => Raise (ValueError [Lit (u "Element must be a list of 2 integers, got "); Val e])
  end.

(** [t / 1000] truncated toward zero, or one unit closer to zero when 1000
    divides [t] (the results [int(r / 1000 * size)] can take, [t = r * size]) *)
Definition near_trunc (t a : Z) : bool :=
  (a =? Z.quot t 1000) ||
  ((Z.rem t 1000 =? 0) && negb (t =? 0) && (a =? Z.quot t 1000 - Z.sgn t)).

(** ** Text forms of points: [str(int)] and [str([x, y])] *)

(** decimal digits of [n >= 0], most significant first *)
Fixpoint nat_digits (fuel : nat) (n : Z) : list Z :=
  match fuel with
  | O => []
  | S f => if n <? 10 then [n] else nat_digits f (n / 10) ++ [n mod 10]
  end.

(** [str(z)] for an [int] *)
Definition str_int (z : Z) : pystr :=
  (if z <? 0 then [45] else []) ++
  map (fun d => 48 + d) (nat_digits (S (Z.to_nat (Z.log2 (Z.abs z)))) (Z.abs z)).

(** [str([x, y])] *)
Definition point_text (x y : Z) : pystr := [91] ++ str_int x ++ [44; 32] ++ str_int y ++ [93].

(** a sign and decimal digits, as [str] writes an [int] *)
Definition num_text (neg : bool) (ds : list Z) : pystr :=
  (if neg then [45] else []) ++ map (fun e => 48 + e) ds.


(** ** The dispatcher: [ActionResult], [ActionHandler.execute] *)

(** [ActionResult.message]: a value ([None] is [MVal PNone]) or an f-string *)
Inductive rmessage := MVal (v : pyval) | MFmt (m : msg).

Record ActionResult := mkResult {
  success : bool;
  should_finish : bool;
  message : rmessage;
  requires_confirmation : bool
}.

Definition AR (s f : bool) (m : rmessage) : ActionResult := mkResult s f m false.

Definition lit (s : string) : rmessage := MVal (PStr (u s)).

(** Calls to the injected collaborators: the device primitives of
    [phone_agent.adb], [time.sleep], the confirmation and takeover
    callbacks, and [print] to standard output (which raises when the stream
    cannot encode the text, e.g. a lone surrogate under UTF-8).  Each call
    is logged in the trace. *)
Inductive call :=
| CTap (x y : Z) (delay : option flt)
| CDoubleTap (x y : Z)
| CLongPress (x y : Z)
| CSwipe (x1 y1 x2 y2 : Z)
| CLaunch (app : pyval)
| CBack
| CHome
| CSetKeyboard
| CClearText
| CTypeText (text : pyval)
| CRestoreKeyboard (ime : pyval)
| CSleep (seconds : flt)
| CConfirm (m : pyval)
| CTakeover (m : pyval)
| CPrint (m : msg).

(** The trace-and-exception monad of one dispatch. *)
Definition M (A : Type) := list call -> list call * res A.

Definition mret {A} (a : A) : M A := fun tr => (tr, Ok a).
Definition mraise {A} (e : exn) : M A := fun tr => (tr, Raise e).
Definition mbind {A B} (m : M A) (k : A -> M B) : M B :=
  fun tr => match m tr with
            | (tr', Ok a) => k a tr'
            | (tr', Raise e) => (tr', Raise e)
            end.
Definition lift {A} (r : res A) : M A := fun tr => (tr, r).

Notation "x <-- m ;; k" := (mbind m (fun x => k))
  (at level 61, m at next level, right associativity).
Notation "m ;;; k" := (mbind m (fun _ => k)) (at level 61, right associativity).

(** Python truthiness *)
Definition truthy (v : pyval) : bool :=
  match v with
  | PNone => false
  | PBool b => b
  | PInt z => negb (z =? 0)
  | PFloat (Fin q) => negb (Qeq_bool q 0)
  | PFloat _ => true
  | PStr s => match s with [] => false | _ => true end
  | PList l | PTuple l => match l with [] => false | _ => true end
  | PDict d => match d with [] => false | _ => true end
  end.

(** [v == "lit"] *)
Definition is_str (v : pyval) (s : string) : bool :=
  match v with PStr t => str_eqb t (u s) | _ => false end.

Fixpoint hashable (v : pyval) : bool :=
  match v with
  | PList _ | PDict _ => false
  | PTuple l => forallb hashable l
  | _ => true
  end.

Definition type_name (v : pyval) : string :=
  match v with
  | PNone => "NoneType" | PBool _ => "bool" | PInt _ => "int" | PFloat _ => "float"
  | PStr _ => "str" | PList _ => "list" | PTuple _ => "tuple" | PDict _ => "dict"
  end%string.

Inductive handler :=
| HLaunch | HTap | HType | HSwipe | HBack | HHome | HDoubleTap | HLongPress
| HWait | HTakeover | HNote | HCallAPI | HInteract.

(** the table of [ActionHandler._get_handler] *)
Definition handlers : list (string * handler) :=
  [("Launch"%string, HLaunch); ("Tap"%string, HTap); ("Type"%string, HType); ("Type_Name"%string, HType);
   ("Swipe"%string, HSwipe); ("Back"%string, HBack); ("Home"%string, HHome); ("Double Tap"%string, HDoubleTap);
   ("Long Press"%string, HLongPress); ("Wait"%string, HWait); ("Take_over"%string, HTakeover);
   ("Note"%string, HNote); ("Call_API"%string, HCallAPI); ("Interact"%string, HInteract)].

(** [handlers.get(action_name)]: hashing an unhashable key raises *)
Definition get_handler (action_name : pyval) : res (option handler) :=
  if negb (hashable action_name) then
    Raise (TypeError [Lit (u "unhashable type: '"); Lit (u (type_name action_name)); Lit (u "'")])
  else
    Ok (match find (fun kh => is_str action_name (fst kh)) handlers with
        | Some (_, h) => Some h
        | None => None
        end).

Definition registered (s : string) : bool :=
  existsb (fun kh => String.eqb (fst kh) s) handlers.

Definition action := list (pystr * pyval).

(** [action.get(k, default)] *)
Definition get (a : action) (k : string) (default : pyval) : pyval :=
  match dget a (u k) with Some v => v | None => default end.

Definition has (a : action) (k : string) : bool :=
  match dget a (u k) with Some _ => true | None => false end.

Section Dispatch.

(** What each collaborator call returns or raises. *)
Variable env : call -> res pyval.

Definition ext (c : call) : M pyval := fun tr => (tr ++ [c], env c).

Definition sleep (secs : flt) : M unit := ext (CSleep secs) ;;; mret tt.

Definition convert (element : pyval) (w h : Z) : M (Z * Z) :=
  lift (convert_relative_to_absolute element w h).

Definition handle_launch (a : action) (width height : Z) : M ActionResult :=
  let app_name := get a "app" PNone in
  if negb (truthy app_name) then mret (AR false false (lit "No app name specified"))
  else
    ok <-- ext (CLaunch app_name) ;;
    if truthy ok then mret (AR true false (MVal PNone))
    else mret (AR false false
                  (MFmt [Lit (u "App not found in config: "); Val app_name;
                         Lit (u ". Please try to find it on the screen manually (Swipe/Tap).")])).

(** the three compensating taps of the top zone *)
Definition offset : Z := 20.

(** the two debug lines of [_handle_tap] *)
Definition tap_debug (element : pyval) (x y : Z) : msg :=
  [Lit (u "[DEBUG] Tap action: relative="); Val element; Lit (u ", absolute=(");
   Val (PInt x); Lit (u ", "); Val (PInt y); Lit (u ")")].

Definition top_zone_debug : msg := [Lit (u "[DEBUG] 启用顶部区域容错点击策略...")].

Definition handle_tap (a : action) (width height : Z) : M ActionResult :=
  let element := get a "element" PNone in
  if negb (truthy element) then mret (AR false false (lit "No element coordinates"))
  else
    xy <-- convert element width height ;;
    let (x, y) := xy in
    ext (CPrint (tap_debug element x y)) ;;;
    confirmed <--
      (if has a "message"
       then c <-- ext (CConfirm (get a "message" PNone)) ;; mret (truthy c)
       else mret true) ;;
    if negb confirmed
    then mret (AR false true (lit "User cancelled sensitive operation"))
    else
      ext (CTap x y None) ;;;
      h <-- lift (float_of_int height) ;;
      (if int_lt_float y (fmul h c015)
       then ext (CPrint top_zone_debug) ;;;
            ext (CTap x (y + offset) (Some c01)) ;;;
            ext (CTap (x + offset) y (Some c01)) ;;;
            ext (CTap (x - offset) y (Some c01)) ;;;
            mret tt
       else mret tt) ;;;
      mret (AR true false (MVal PNone)).

Definition handle_type (a : action) (width height : Z) : M ActionResult :=
  let text := get a "text" (PStr []) in
  original_ime <-- ext CSetKeyboard ;;
  sleep (Fin 1) ;;;
  ext CClearText ;;;
  sleep (Fin 1) ;;;
  ext (CTypeText text) ;;;
  sleep (Fin 1) ;;;
  ext (CRestoreKeyboard original_ime) ;;;
  sleep (Fin 1) ;;;
  mret (AR true false (MVal PNone)).

Definition handle_swipe (a : action) (width height : Z) : M ActionResult :=
  let start := get a "start" PNone in
  let end_ := get a "end" PNone in
  if negb (truthy start) || negb (truthy end_)
  then mret (AR false false (lit "Missing swipe coordinates"))
  else
    s <-- convert start width height ;;
    e <-- convert end_ width height ;;
    ext (CSwipe (fst s) (snd s) (fst e) (snd e)) ;;;
    mret (AR true false (MVal PNone)).

Definition handle_back (a : action) (width height : Z) : M ActionResult :=
  ext CBack ;;; mret (AR true false (MVal PNone)).

Definition handle_home (a : action) (width height : Z) : M ActionResult :=
  ext CHome ;;; mret (AR true false (MVal PNone)).

Definition handle_double_tap (a : action) (width height : Z) : M ActionResult :=
  let element := get a "element" PNone in
  if negb (truthy element) then mret (AR false false (lit "No element coordinates"))
  else
    xy <-- convert element width height ;;
    ext (CDoubleTap (fst xy) (snd xy)) ;;;
    mret (AR true false (MVal PNone)).

Definition handle_long_press (a : action) (width height : Z) : M ActionResult :=
  let element := get a "element" PNone in
  if negb (truthy element) then mret (AR false false (lit "No element coordinates"))
  else
    xy <-- convert element width height ;;
    ext (CLongPress (fst xy) (snd xy)) ;;;
    mret (AR true false (MVal PNone)).

(** [float(duration_str.replace("seconds", "").strip())], [1.0] on a
    [ValueError]; a non-[str] duration has no [replace] method *)
Definition wait_duration (duration_str : pyval) : res flt :=
  match duration_str with
  | PStr s =>
    match float_of_str (strip (replace s (u "seconds") [])) with
    | Ok f => Ok f
    | Raise (ValueError _) => Ok (Fin 1)
    | Raise e => Raise e
    end
  | v => Raise (OtherError (u "AttributeError")
                  [Lit (u "'"); Lit (u (type_name v)); Lit (u "' object has no attribute 'replace'")])
  end.

Definition handle_wait (a : action) (width height : Z) : M ActionResult :=
  duration <-- lift (wait_duration (get a "duration" (PStr (u "1 seconds")))) ;;
  sleep duration ;;;
  mret (AR true false (MVal PNone)).

Definition handle_takeover (a : action) (width height : Z) : M ActionResult :=
  let m := get a "message" (PStr (u "User intervention required")) in
  ext (CTakeover m) ;;;
  mret (AR true false (MVal PNone)).

Definition handle_note (a : action) (width height : Z) : M ActionResult :=
  mret (AR true false (MVal PNone)).

Definition handle_call_api (a : action) (width height : Z) : M ActionResult :=
  mret (AR true false (MVal PNone)).

Definition handle_interact (a : action) (width height : Z) : M ActionResult :=
  mret (AR true false (lit "User interaction required")).

Definition run_handler (h : handler) : action -> Z -> Z -> M ActionResult :=
  match h with
  | HLaunch => handle_launch | HTap => handle_tap | HType => handle_type
  | HSwipe => handle_swipe | HBack => handle_back | HHome => handle_home
  | HDoubleTap => handle_double_tap | HLongPress => handle_long_press
  | HWait => handle_wait | HTakeover => handle_takeover | HNote => handle_note
  | HCallAPI => handle_call_api | HInteract => handle_interact
  end.

(** [try: return handler(...) except Exception as e: ...] *)
Definition catch_exception (m : M ActionResult) : M ActionResult :=
  fun tr =>
    match m tr with
    | (tr', Raise e) =>
      if is_Exception e
      then (tr', Ok (AR false false (MFmt (Lit (u "Action failed: ") :: exn_msg e))))
      else (tr', Raise e)
    | r => r
    end.

Definition execute (a : action) (screen_width screen_height : Z) : M ActionResult :=
  let action_type := get a "_metadata" PNone in
  if is_str action_type "finish"
  then mret (AR true true (MVal (get a "message" PNone)))
  else if negb (is_str action_type "do")
  then mret (AR false true (MFmt [Lit (u "Unknown action type: "); Val action_type]))
  else
    let action_name := get a "action" PNone in
    handler_method <-- lift (get_handler action_name) ;;
    match handler_method with
    | None => mret (AR false false (MFmt [Lit (u "Unknown action: "); Val action_name]))
    | Some h => catch_exception (run_handler h a screen_width screen_height)
    end.

End Dispatch.

(** a dispatch from an empty trace *)
Definition dispatch env a w h : list call * res ActionResult := execute env a w h [].

(** ** [parse_action] *)

(** The model of [parse_action] is partial: [None] marks an input outside
    the fragment of Python it decides (a token [eval] would accept but the
    grammar below does not cover, a character whose Unicode class the
    regular expressions would need and that is not tabulated here, an
    integer literal past CPython's 4300-digit conversion limit).  Where it
    answers [Some (out, r)], [out] is what [print] wrote, one entry per call,
    and [r] the value returned or the exception raised. *)
Definition P (A : Type) := list pystr -> option (list pystr * res A).

Definition pret {A} (a : A) : P A := fun out => Some (out, Ok a).
Definition praise {A} (e : exn) : P A := fun out => Some (out, Raise e).
Definition pnone {A} : P A := fun _ => None.
Definition pbind {A B} (m : P A) (k : A -> P B) : P B :=
  fun out => match m out with
             | Some (out', Ok a) => k a out'
             | Some (out', Raise e) => Some (out', Raise e)
             | None => None
             end.
Definition popt {A} (o : option A) : P A :=
  fun out => match o with Some a => Some (out, Ok a) | None => None end.
Definition pres {A} (r : res A) : P A := fun out => Some (out, r).

Notation "x <~ m ;; k" := (pbind m (fun x => k))
  (at level 61, m at next level, right associativity).

Definition obind {A B} (o : option A) (k : A -> option B) : option B :=
  match o with Some a => k a | None => None end.


(** text with a double quote, which Rocq string literals cannot hold *)
Definition dq : pystr := [34].

(** *** The expressions [eval] is given *)

Inductive tok :=
| TName (n : pystr) | TStr (s : pystr) | TInt (z : Z)
| TLPar | TRPar | TLBrk | TRBrk | TComma | TEq.

Definition is_ascii_letter (c : Z) : bool :=
  ((65 <=? c) && (c <=? 90)) || ((97 <=? c) && (c <=? 122)).

Definition is_name_char (c : Z) : bool := is_ascii_letter c || is_digit c || (c =? 95).

Fixpoint span (p : Z -> bool) (s : pystr) : pystr * pystr :=
  match s with
  | c :: s' => if p c then let (a, b) := span p s' in (c :: a, b) else ([], s)
  | [] => ([], [])
  end.

(** the body of a one-line string literal without escapes, up to the
    closing quote [q] *)
Definition string_body (q : Z) (s : pystr) : option (pystr * pystr) :=
  let (body, rest) := span (fun c => negb ((c =? q) || (c =? 92) || (c =? 10) || (c =? 13) || (c =? 0))) s in
  match rest with
  | c :: rest' => if c =? q then Some (body, rest') else None
  | [] => None
  end.

(** Python's tokenizer on one logical line, for names, one-line string
    literals without prefix or escape, decimal integers, brackets, commas
    and [=]; blanks are spaces and tabs. *)
Fixpoint tokenize (fuel : nat) (s : pystr) : option (list tok) :=
  match fuel with
  | O => None
  | S f =>
    match s with
    | [] => Some []
    | c :: r =>
      if (c =? 32) || (c =? 9) then tokenize f r
      else if c =? 40 then option_map (cons TLPar) (tokenize f r)
      else if c =? 41 then option_map (cons TRPar) (tokenize f r)
      else if c =? 91 then option_map (cons TLBrk) (tokenize f r)
      else if c =? 93 then option_map (cons TRBrk) (tokenize f r)
      else if c =? 44 then option_map (cons TComma) (tokenize f r)
      else if c =? 61 then
        match r with
        | 61 :: _ => None
        | _ => option_map (cons TEq) (tokenize f r)
        end
      else if (c =? 39) || (c =? 34) then
        match r with
        | q :: q' :: _ => if (q =? c) && (q' =? c) then None (* a triple quote *)
                          else obind (string_body c r) (fun '(b, r') => option_map (cons (TStr b)) (tokenize f r'))
        | _ => obind (string_body c r) (fun '(b, r') => option_map (cons (TStr b)) (tokenize f r'))
        end
      else if is_ascii_letter c || (c =? 95) then
        let (n, r') := span is_name_char r in
        match r' with
        | d :: _ => if (d =? 39) || (d =? 34) || (128 <=? d) then None
                    else option_map (cons (TName (c :: n))) (tokenize f r')
        | [] => option_map (cons (TName (c :: n))) (tokenize f r')
        end
      else if is_digit c then
        let (ds, r') := span is_digit r in
        if (c =? 48) && negb (match ds with [] => true | _ => false end) then None
        else if 4300 <? Z.of_nat (List.length (c :: ds)) then None
        else
          match r' with
          | d :: _ => if is_name_char d || (d =? 46) || (128 <=? d) then None
                      else option_map (cons (TInt (digits_value (map digit_val (c :: ds))))) (tokenize f r')
          | [] => option_map (cons (TInt (digits_value (map digit_val (c :: ds))))) (tokenize f r')
          end
      else None
    end
  end.

Inductive pexpr :=
| EName (n : pystr)
| EStr (s : pystr)
| EInt (z : Z)
| EList (es : list pexpr)
| ECall (f : pystr) (args : list (option pystr * pexpr)).

(** expressions: a name, a literal, a list display, a call *)
Fixpoint p_expr (fuel : nat) (ts : list tok) : option (pexpr * list tok) :=
  match fuel with
  | O => None
  | S f =>
    match ts with
    | TName n :: TLPar :: r => p_args f n [] r
    | TName n :: r => Some (EName n, r)
    | TStr s :: r => Some (EStr s, r)
    | TInt z :: r => Some (EInt z, r)
    | TLBrk :: TRBrk :: r => Some (EList [], r)
    | TLBrk :: r => p_elems f [] r
    | _ => None
    end
  end
(** list elements after [[], [acc] reversed *)
with p_elems (fuel : nat) (acc : list pexpr) (ts : list tok) : option (pexpr * list tok) :=
  match fuel with
  | O => None
  | S f =>
    obind (p_expr f ts) (fun '(e, r) =>
    match r with
    | TRBrk :: r' | TComma :: TRBrk :: r' => Some (EList (rev (e :: acc)), r')
    | TComma :: r' => p_elems f (e :: acc) r'
    | _ => None
    end)
  end
(** call arguments after [n(], [acc] reversed *)
with p_args (fuel : nat) (n : pystr) (acc : list (option pystr * pexpr)) (ts : list tok)
    : option (pexpr * list tok) :=
  match fuel with
  | O => None
  | S f =>
    match ts with
    | TRPar :: r => Some (ECall n (rev acc), r)
    | _ =>
      obind (match ts with
             | TName k :: TEq :: r => option_map (fun '(e, r') => ((Some k, e), r')) (p_expr f r)
             | _ => option_map (fun '(e, r') => ((None, e), r')) (p_expr f ts)
             end) (fun '(arg, r1) =>
      match r1 with
      | TRPar :: r' | TComma :: TRPar :: r' => Some (ECall n (rev (arg :: acc)), r')
      | TComma :: r' => p_args f n (arg :: acc) r'
      | _ => None
      end)
    end
  end.

Definition py_keywords : list string :=
  ["False"; "None"; "True"; "and"; "as"; "assert"; "async"; "await"; "break";
   "class"; "continue"; "def"; "del"; "elif"; "else"; "except"; "finally"; "for";
   "from"; "global"; "if"; "import"; "in"; "is"; "lambda"; "nonlocal"; "not";
   "or"; "pass"; "raise"; "return"; "try"; "while"; "with"; "yield"]%string.

Definition is_keyword (n : pystr) : bool := existsb (fun k => str_eqb n (u k)) py_keywords.

Definition is_const (n : pystr) : bool :=
  str_eqb n (u "True") || str_eqb n (u "False") || str_eqb n (u "None").

(** no positional argument after a keyword argument *)
Fixpoint positional_first (args : list (option pystr * pexpr)) : bool :=
  match args with
  | (Some _, _) :: r => forallb (fun a => match fst a with Some _ => true | None => false end) r
  | (None, _) :: r => positional_first r
  | [] => true
  end.

Fixpoint distinct_keys (ks : list pystr) : bool :=
  match ks with
  | k :: ks' => negb (existsb (str_eqb k) ks') && distinct_keys ks'
  | [] => true
  end.

Definition kw_names (args : list (option pystr * pexpr)) : list pystr :=
  flat_map (fun a => match fst a with Some k => [k] | None => [] end) args.

(** what the compiler refuses before anything runs: a keyword used as a
    name or an argument name, a positional argument after a keyword one, a
    repeated keyword argument *)
Fixpoint compiles (e : pexpr) : bool :=
  match e with
  | EName n => negb (is_keyword n) || is_const n
  | EStr _ | EInt _ => true
  | EList es => forallb compiles es
  | ECall f args =>
    (negb (is_keyword f) || is_const f) && positional_first args &&
    forallb (fun k => negb (is_keyword k)) (kw_names args) &&
    distinct_keys (kw_names args) &&
    forallb (fun a => compiles (snd a)) args
  end.

(** the module's [do] and [finish], which take keyword arguments only:
    the keyword arguments as a dict, then [_metadata] set to the name *)
Definition kwargs_only (name : pystr) (args : list (option pystr * pyval)) : P pyval :=
  let npos := Z.of_nat (List.length (filter (fun a => match fst a with None => true | Some _ => false end) args)) in
  if 0 <? npos then
    praise (TypeError [Lit name; Lit (u "() takes 0 positional arguments but "); Val (PInt npos);
                       Lit (if npos =? 1 then u " was given" else u " were given")])
  else
    let kwargs := flat_map (fun a => match fst a with Some k => [(k, snd a)] | None => [] end) args in
    pret (PDict (dict_set kwargs (u "_metadata") (PStr name))).

Definition do := kwargs_only (u "do").
Definition finish := kwargs_only (u "finish").

(** [print] of positional [str] arguments: one line of output (standard
    output taken to encode UTF-8; the texts printed here come from string
    literals of a source [eval] accepted, so they hold no lone surrogate) *)
Fixpoint join_space (ss : list pystr) : pystr :=
  match ss with
  | [] => []
  | [s] => s
  | s :: ss' => s ++ [32] ++ join_space ss'
  end.

Definition print (args : list (option pystr * pyval)) : P pyval :=
  fun out =>
    match fold_right (fun a acc =>
                        match a, acc with
                        | (None, PStr t), Some ts => Some (t :: ts)
                        | _, _ => None
                        end) (Some []) args with
    | Some ts => Some (out ++ [join_space ts], Ok PNone)
    | None => None
    end.

(** evaluation, left to right; the names the module and the builtins
    provide are [do], [finish], [print], [True], [False] and [None] *)
Fixpoint ev (e : pexpr) : P pyval :=
  match e with
  | EStr s => pret (PStr s)
  | EInt z => pret (PInt z)
  | EName n =>
    if str_eqb n (u "True") then pret (PBool true)
    else if str_eqb n (u "False") then pret (PBool false)
    else if str_eqb n (u "None") then pret PNone
    else pnone
  | EList es =>
    vs <~ (fix ev_list (l : list pexpr) : P (list pyval) :=
             match l with
             | [] => pret []
             | e :: l' => v <~ ev e ;; vs <~ ev_list l' ;; pret (v :: vs)
             end) es ;;
    pret (PList vs)
  | ECall f args =>
    if str_eqb f (u "do") || str_eqb f (u "finish") || str_eqb f (u "print") then
      vs <~ (fix ev_args (l : list (option pystr * pexpr)) : P (list (option pystr * pyval)) :=
               match l with
               | [] => pret []
               | (k, e) :: l' => v <~ ev e ;; vs <~ ev_args l' ;; pret ((k, v) :: vs)
               end) args ;;
      if str_eqb f (u "print") then print vs
      else if str_eqb f (u "do") then do vs else finish vs
    else pnone
  end.

(** a UTF-16 surrogate code point, which UTF-8 cannot encode *)
Definition is_surrogate (c : Z) : bool := (55296 <=? c) && (c <=? 57343).

Fixpoint first_surrogate (i : Z) (s : pystr) : option (Z * Z) :=
  match s with
  | [] => None
  | c :: s' => if is_surrogate c then Some (c, i) else first_surrogate (i + 1) s'
  end.

(** [eval(s)]: encode the text to UTF-8 (a lone surrogate raises
    [UnicodeEncodeError] before anything is compiled; [str()] of that error
    shows the code point escaped), compile the whole text, then evaluate it *)
Definition py_eval (s : pystr) : P pyval :=
  match first_surrogate 0 s with
  | Some (c, i) =>
    praise (OtherError (u "UnicodeEncodeError")
              [Lit (u "'utf-8' codec can't encode character "); Val (PStr [c]);
               Lit (u " in position "); Val (PInt i); Lit (u ": surrogates not allowed")])
  | None =>
  match tokenize (S (List.length s)) s with
  | None => pnone
  | Some ts =>
    match p_expr (S (List.length ts)) ts with
    | Some (e, []) => if compiles e then ev e else pnone
    | _ => pnone
    end
  end
  end.

(** *** The regular expressions *)

(** [\w] of [re] (Unicode [str] patterns: alphanumerics and [_]) on the
    characters it is tabulated for: ASCII, the CJK Unified Ideographs
    U+4E00..U+9FA5, the fullwidth digits and Latin letters, and common CJK
    and typographic punctuation; [None] elsewhere. *)
Definition cjk_punct (c : Z) : bool :=
  ((12288 <=? c) && (c <=? 12292)) || ((12296 <=? c) && (c <=? 12305)) ||
  ((65281 <=? c) && (c <=? 65295)) || ((65306 <=? c) && (c <=? 65312)) ||
  ((65339 <=? c) && (c <=? 65344)) || ((65371 <=? c) && (c <=? 65381)) ||
  (c =? 183) || (c =? 8212) || (c =? 8216) || (c =? 8217) || (c =? 8220) ||
  (c =? 8221) || (c =? 8230).

Definition fullwidth_digit (c : Z) : bool := (65296 <=? c) && (c <=? 65305).

Definition re_word (c : Z) : option bool :=
  if c <? 128 then Some (is_name_char c)
  else if ((19968 <=? c) && (c <=? 40869)) || fullwidth_digit c ||
          ((65313 <=? c) && (c <=? 65338)) || ((65345 <=? c) && (c <=? 65370))
  then Some true
  else if cjk_punct c then Some false
  else None.

(** [\d]: decimal digits (Unicode category Nd) *)
Definition re_digit (c : Z) : option bool :=
  if c <? 128 then Some (is_digit c)
  else if fullwidth_digit c then Some true
  else match re_word c with
       | Some _ => Some false
       | None => if is_space c then Some false else None
       end.

(** the maximal run of characters of a class at the head of [s] *)
Fixpoint class_run (cls : Z -> option bool) (s : pystr) : option (pystr * pystr) :=
  match s with
  | [] => Some ([], [])
  | c :: s' =>
    match cls c with
    | None => None
    | Some true => option_map (fun '(w, r) => (c :: w, r)) (class_run cls s')
    | Some false => Some ([], s)
    end
  end.

(** group 1 of [re.search] with the pattern [(\d+)\s*] followed by a unit: [\d], [\s] and the unit's
    first character are disjoint, so the maximal digit and blank runs are
    the only candidates at each position *)
Definition dur_match (unit_at : pystr -> option bool) (s : pystr) : option (option pystr) :=
  obind (class_run re_digit s) (fun '(ds, r) =>
    match ds with
    | [] => Some None
    | _ => option_map (fun b : bool => if b then Some ds else None) (unit_at (lstrip r))
    end).

Fixpoint dur_search (unit_at : pystr -> option bool) (s : pystr) : option (option pystr) :=
  match s with
  | [] => Some None
  | _ :: s' =>
    obind (dur_match unit_at s) (fun m =>
      match m with
      | Some g => Some (Some g)
      | None => dur_search unit_at s'
      end)
  end.

(** the unit [秒] *)
Definition unit_miao (s : pystr) : option bool :=
  match s with c :: _ => Some (c =? ch "秒") | [] => Some false end.

(** one character against a lower-case ASCII letter under [re.IGNORECASE];
    U+017F (long s), which folds to [s], is left undecided *)
Definition ci_char (d c : Z) : option bool :=
  if d =? 383 then None else Some ((d =? c) || (d =? c - 32)).

Fixpoint ci_prefix (s p : pystr) : option bool :=
  match p, s with
  | [], _ => Some true
  | c :: p', d :: s' =>
    obind (ci_char d c) (fun b => if b then ci_prefix s' p' else Some false)
  | _ :: _, [] => Some false
  end.

(** the unit [seconds?] with [re.IGNORECASE]; the optional [s] does not
    change group 1 *)
Definition unit_second (s : pystr) : option bool := ci_prefix s (u "second").

(** the text before the last [c] of [s] *)
Fixpoint upto_last (c : Z) (s : pystr) : option pystr :=
  match s with
  | [] => None
  | d :: s' =>
    match upto_last c s' with
    | Some p => Some (d :: p)
    | None => if d =? c then Some [] else None
    end
  end.

Definition not_eol (c : Z) : bool := negb ((c =? 10) || (c =? 13)).

(** [re.search(r'(name[^\n\r]*\))', s).group(1)] for [name] ending in an
    escaped [(]: the greedy class runs to the end of the line and gives
    back up to the last [)] *)
Fixpoint re_call (name s : pystr) : option pystr :=
  match s with
  | [] => None
  | _ :: s' =>
    if startswith s name then
      match upto_last 41 (fst (span not_eol (skipn (List.length name) s))) with
      | Some body => Some (name ++ body ++ [41])
      | None => re_call name s'
      end
    else re_call name s'
  end.

(** [re.search(r'\{[^}]+\}', s).group(0)] *)
Fixpoint dict_search (s : pystr) : option pystr :=
  match s with
  | [] => None
  | c :: s' =>
    if c =? 123 then
      let (body, rest) := span (fun d => negb (d =? 125)) s' in
      match body, rest with
      | _ :: _, 125 :: _ => Some ([123] ++ body ++ [125])
      | _, _ => dict_search s'
      end
    else dict_search s'
  end.

(** [re.sub] with a pattern that matches at least one character: [m s]
    is [None] when a character class is undecided, [Some None] when the
    pattern does not match at the head of [s], [Some (Some (text, rest))]
    when it matches, with the replacement text and what follows the match *)
Fixpoint re_sub_fuel (fuel : nat) (m : pystr -> option (option (pystr * pystr))) (s : pystr)
    : option pystr :=
  match fuel with
  | O => None
  | S f =>
    match s with
    | [] => Some []
    | c :: s' =>
      obind (m s) (fun r =>
        match r with
        | Some (text, rest) => option_map (app text) (re_sub_fuel f m rest)
        | None => option_map (cons c) (re_sub_fuel f m s')
        end)
    end
  end.

Definition re_sub (m : pystr -> option (option (pystr * pystr))) (s : pystr) : option pystr :=
  re_sub_fuel (S (List.length s)) m s.

(** [(\w+)=] at the head of [s]: the key and what follows the [=]; [=] is
    no word character, so only the maximal run can be followed by it *)
Definition key_eq (s : pystr) : option (option (pystr * pystr)) :=
  obind (class_run re_word s) (fun '(w, r) =>
    match w, r with
    | _ :: _, 61 :: r' => Some (Some (w, r'))
    | _, _ => Some None
    end).

(** [(\w+)=(\[[^\]]+\])] replaced by the key in double quotes, [: ] and the
    bracketed list *)
Definition sub_list (s : pystr) : option (option (pystr * pystr)) :=
  obind (key_eq s) (fun kr =>
    match kr with
    | Some (w, 91 :: r) =>
      let (body, rest) := span (fun c => negb (c =? 93)) r in
      match body, rest with
      | _ :: _, 93 :: rest' => Some (Some (dq ++ w ++ dq ++ u ": [" ++ body ++ u "]", rest'))
      | _, _ => Some None
      end
    | _ => Some None
    end).

(** the key, [=], and a non-empty text in double quotes, replaced by the
    key in double quotes, [: ] and the quoted text *)
Definition sub_quoted (s : pystr) : option (option (pystr * pystr)) :=
  obind (key_eq s) (fun kr =>
    match kr with
    | Some (w, 34 :: r) =>
      let (body, rest) := span (fun c => negb (c =? 34)) r in
      match body, rest with
      | _ :: _, 34 :: rest' => Some (Some (dq ++ w ++ dq ++ u ": " ++ dq ++ body ++ dq, rest'))
      | _, _ => Some None
      end
    | _ => Some None
    end).

(** [(\w+)=([^,}\s\[]+)] replaced by the key and the value, each in double
    quotes, with [: ] between *)
Definition sub_bare (s : pystr) : option (option (pystr * pystr)) :=
  obind (key_eq s) (fun kr =>
    match kr with
    | Some (w, r) =>
      let (body, rest) :=
        span (fun c => negb ((c =? 44) || (c =? 125) || is_space c || (c =? 91))) r in
      match body with
      | _ :: _ => Some (Some (dq ++ w ++ dq ++ u ": " ++ dq ++ body ++ dq, rest))
      | [] => Some None
      end
    | None => Some None
    end).

(** *** [parse_single_action] and [parse_action] *)

(** [k in v] for a [str] key *)
Definition py_in (k : pystr) (v : pyval) : res bool :=
  match v with
  | PDict d => Ok (match dget d k with Some _ => true | None => false end)
  | PList l | PTuple l =>
    Ok (existsb (fun x => match x with PStr t => str_eqb t k | _ => false end) l)
  | PStr s => Ok (contains s k)
  | _ => Raise (TypeError [Lit (u "argument of type '"); Lit (u (type_name v));
                           Lit (u "' is not iterable")])
  end.

(** [v[k] = x] for a [str] key *)
Definition py_setitem (v : pyval) (k : pystr) (x : pyval) : res pyval :=
  match v with
  | PDict d => Ok (PDict (dict_set d k x))
  | PList _ => Raise (TypeError [Lit (u "list indices must be integers or slices, not str")])
  | _ => Raise (TypeError [Lit (u "'"); Lit (u (type_name v));
                           Lit (u "' object does not support item assignment")])
  end.

(** [s[1:-2]] *)
Definition slice_1_m2 (s : pystr) : pystr := firstn (List.length s - 3) (skipn 1 s).

(** Method 4: the first brace group rewritten to JSON and decoded *)
Definition json_like (dict_str : pystr) : P pyval :=
  s1 <~ popt (re_sub sub_list dict_str) ;;
  s2 <~ popt (re_sub sub_quoted s1) ;;
  s3 <~ popt (re_sub sub_bare s2) ;;
  action <~ pres (json_loads s3) ;;
  has_meta <~ pres (py_in (u "_metadata") action) ;;
  if has_meta then pret action
  else
    has_action <~ pres (py_in (u "action") action) ;;
    pres (py_setitem action (u "_metadata") (PStr (u (if has_action then "do" else "finish")))).

(** Method 5: the whole line as JSON *)
Definition pure_json (act_str : pystr) : P pyval :=
  action <~ pres (json_loads act_str) ;;
  has_meta <~ pres (py_in (u "_metadata") action) ;;
  if has_meta then pret action
  else pres (py_setitem action (u "_metadata") (PStr (u "do"))).

Definition parse_single_action (act_str0 : pystr) : P pyval :=
  let act_str := strip act_str0 in
  if startswith act_str (u "do(") || startswith act_str (u "finish(") then py_eval act_str
  else
    match re_call (u "do(") act_str with
    | Some g => py_eval g
    | None =>
      match re_call (u "finish(") act_str with
      | Some g => py_eval g
      | None =>
        if startswith act_str (u "finish") then
          pret (PDict [(u "_metadata", PStr (u "finish"));
                       (u "message", PStr (slice_1_m2 (strip (replace act_str (u "finish(message=") []))))])
        else if contains act_str (u "{") && contains act_str (u "}") then
          match dict_search act_str with
          | Some dict_str => json_like dict_str
          | None => pure_json act_str
          end
        else pure_json act_str
      end
    end.

(** each line in turn, keeping what parses; a bare [except] drops the rest *)
Fixpoint try_each (ls : list pystr) (out : list pystr) : option (list pystr * list pyval) :=
  match ls with
  | [] => Some (out, [])
  | l :: ls' =>
    match parse_single_action l out with
    | None => None
    | Some (out1, Ok v) => option_map (fun '(o, vs) => (o, v :: vs)) (try_each ls' out1)
    | Some (out1, Raise _) => try_each ls' out1
    end
  end.

Definition cleanup_tags : list string :=
  ["<|begin_of_box|>"; "<|end_of_box|>"; "{think}"; "{action}"; "</s>"; "<think>";
   "</think>"; "<answer>"; "</answer>"; "answer>"; "<tool_call>"]%string.

(** [response] after [strip] and the tag removals *)
Definition clean (response : pystr) : pystr :=
  fold_left (fun s t => replace s (u t) []) cleanup_tags (strip response).

Definition placeholders : list string :=
  ["{action}"; "{think}"; "<action>"; "</action>"; "<answer>"]%string.

Definition is_valid_line (line : pystr) : bool :=
  match line with
  | [] => false
  | _ => negb (existsb (fun p => str_eqb line (u p)) placeholders)
  end.

Definition is_action_line (line : pystr) : bool :=
  startswith line (u "do(") || startswith line (u "finish(") ||
  startswith line (u "{action=") || startswith line (u "{" ++ dq ++ u "action" ++ dq).

Definition is_call_line (line : pystr) : bool :=
  startswith line (u "do(") || startswith line (u "finish(").

(** a run of more than 4300 ASCII digits, which CPython since 3.11 refuses
    to turn into an [int] (from source or from JSON) *)
Fixpoint long_digit_run_from (run : Z) (s : pystr) : bool :=
  match s with
  | [] => false
  | c :: s' =>
    if is_digit c then (4300 <=? run) || long_digit_run_from (run + 1) s'
    else long_digit_run_from 0 s'
  end.

Definition valid_lines (response : pystr) : list pystr :=
  filter is_valid_line (map strip (split_on 10 (clean response))).

(** the actions the line strategies extract, and what [print] wrote *)
Definition parsed_actions (response : pystr) : option (list pystr * list pyval) :=
  if long_digit_run_from 0 (clean response) then None
  else
    let vl := valid_lines response in
    let action_lines := filter is_action_line vl in
    match action_lines with
    | _ :: _ => try_each action_lines []
    | [] =>
      match vl with
      | [] => Some ([], [])
      | first :: _ =>
        obind (try_each (filter is_call_line vl) []) (fun '(out, ps) =>
          match ps with
          | [] => try_each [first] out
          | _ => Some (out, ps)
          end)
      end
    end.

(** the last resort on the whole (cleaned) response *)
Definition wait_heuristic (response : pystr) : option (res pyval) :=
  let lower_ := lower response in
  if contains lower_ (u "wait") || contains response (u "等待") || contains response (u "加载") ||
     contains lower_ (u "loading") || contains response (u "刷新")
  then
    obind (dur_search unit_miao response) (fun m1 =>
    obind (match m1 with Some g => Some (Some g) | None => dur_search unit_second response end)
      (fun dur_match =>
       let duration := match dur_match with
                       | Some g => g ++ u " seconds"
                       | None => u "2 seconds"
                       end in
       Some (Ok (PDict [(u "_metadata", PStr (u "do")); (u "action", PStr (u "Wait"));
                        (u "duration", PStr duration)]))))
  else Some (Raise (ValueError [Lit (u "Failed to parse action: "); Lit (u "无法解析动作格式: ");
                                Val (PStr response)])).

Definition parse_action (response : pystr) : option (list pystr * res pyval) :=
  obind (parsed_actions response) (fun '(out, ps) =>
    match ps with
    | [] => option_map (fun r => (out, r)) (wait_heuristic (clean response))
    | [a] => Some (out, Ok a)
    | _ => Some (out, Ok (PList ps))
    end).

(** ** Inputs used by the statements below *)

Definition is_tap (c : call) : bool := match c with CTap _ _ _ => true | _ => false end.

Definition tap_action (el : pyval) : action :=
  [(u "_metadata", PStr (u "do")); (u "action", PStr (u "Tap")); (u "element", el)].

Definition quiet_env (c : call) : res pyval := Ok PNone.


(** A takeover callback interrupted by the user (Ctrl-C while waiting for
    Enter raises [KeyboardInterrupt]). *)
Definition interrupted_env (c : call) : res pyval :=
  match c with
  | CTakeover _ => Raise (BaseSignal (u "KeyboardInterrupt"))
  | _ => Ok PNone
  end.

Definition takeover_action : action :=
  [(u "_metadata", PStr (u "do")); (u "action", PStr (u "Take_over"))].

(** an [action] value that is a list *)
Definition list_named_action : action :=
  [(u "_metadata", PStr (u "do")); (u "action", PList [PStr (u "Tap")]);
   (u "element", PList [PInt 500; PInt 500])].

(** characters a one-line string literal can hold in the lemmas below (no
    lone surrogate, which [eval] cannot encode) *)
Definition lit_ok (c : Z) : bool :=
  negb ((c =? 39) || (c =? 34) || (c =? 92) || (c =? 10) || (c =? 13) || (c =? 0) ||
        (c =? 60) || (c =? 123) || is_digit c || is_surrogate c).

(** characters of a call line in the lemmas below: no line break, no [>]
    or [{] (one of which each removed tag contains), no digit *)
Definition line_ok (c : Z) : bool :=
  negb ((c =? 10) || (c =? 62) || (c =? 123) || is_digit c).

(** the action [do(action=k)] builds *)
Definition do_call_dict (k : pystr) : action :=
  [(u "action", PStr k); (u "_metadata", PStr (u "do"))].

(** the action [do(action='Back', note=print(...))] builds *)
Definition noted_back : action :=
  [(u "action", PStr (u "Back")); (u "note", PNone); (u "_metadata", PStr (u "do"))].

(** the action the implicit-wait heuristic builds *)
Definition wait_dict (d : string) : pyval :=
  PDict [(u "_metadata", PStr (u "do")); (u "action", PStr (u "Wait")); (u "duration", PStr (u d))].

(** two call lines *)
Definition two_lines : pystr := u "do(action='Back')" ++ [10] ++ u "do(action='Home')".


Definition kw_pairs (args : list (option pystr * pyval)) : list (pystr * pyval) :=
  flat_map (fun a => match fst a with Some k => [(k, snd a)] | None => [] end) args.

Definition kind_act (k : string) : action :=
  [(u "_metadata", PStr (u "do")); (u "action", PStr (u k))].

Definition type_act : action := kind_act "Type_Name" ++ [(u "text", PStr (u "hello"))].

Definition wait_act (d : pyval) : action := kind_act "Wait" ++ [(u "duration", d)].



(** a device whose keyboard switch reports an IME and whose app table knows no app *)
Definition adb_env (c : call) : res pyval :=
  match c with
  | CSetKeyboard => Ok (PStr (u "com.android.adbkeyboard/.AdbIME"))
  | CLaunch _ => Ok (PBool false)
  | _ => Ok PNone
  end.

Definition adb_error : exn :=
  OtherError (u "CalledProcessError") [Lit (u "adb exited with status 1")].

(** the same device, with [adb shell input] commands failing *)
Definition adb_fail_env (c : call) : res pyval :=
  match c with
  | CTypeText _ | CBack => Raise adb_error
  | _ => adb_env c
  end.


(** * Theorems *)

(** ** Facts about the dispatcher *)

Lemma str_eqb_refl : forall s, str_eqb s s = true.
Proof. induction s as [|c s IH]; simpl; [reflexivity | now rewrite Z.eqb_refl, IH]. Qed.

Lemma get_handler_registered : forall k,
  registered k = true -> exists h, get_handler (PStr (u k)) = Ok (Some h).
Proof.
  intros k Hk. unfold registered in Hk. apply existsb_exists in Hk.
  destruct Hk as [[k' h'] [Hin Heq]]. simpl in Heq. apply String.eqb_eq in Heq. subst k'.
  unfold get_handler.
  destruct (find (fun kh => is_str (PStr (u k)) (fst kh)) handlers) as [[k'' h'']|] eqn:Hf.
  - exists h''. reflexivity.
  - exfalso. eapply find_none in Hf; [|exact Hin]. simpl in Hf.
    rewrite str_eqb_refl in Hf. discriminate.
Qed.


(** the dispatch of a [do] action of a registered kind [k] *)
Lemma execute_do : forall env a w h k hnd tr,
  get a "_metadata" PNone = PStr (u "do") ->
  get a "action" PNone = PStr (u k) ->
  get_handler (PStr (u k)) = Ok (Some hnd) ->
  execute env a w h tr = catch_exception (run_handler env hnd a w h) tr.
Proof.
  intros env a w h k hnd tr Hm Ha Hh. unfold execute. rewrite Hm. simpl.
  rewrite Ha. unfold mbind, lift. rewrite Hh. reflexivity.
Qed.

(** A [do] action whose kind has no handler, for a hashable kind value. *)
Lemma execute_unknown_kind_hashable : forall env a w h,
  get a "_metadata" PNone = PStr (u "do") ->
  hashable (get a "action" PNone) = true ->
  (forall k, In k (map fst handlers) -> is_str (get a "action" PNone) k = false) ->
  dispatch env a w h =
    ([], Ok (AR false false (MFmt [Lit (u "Unknown action: "); Val (get a "action" PNone)]))).
Proof.
  intros env a w h Hm Hh Hk. unfold dispatch, execute. rewrite Hm.
  change (is_str (PStr (u "do")) "finish") with false.
  change (is_str (PStr (u "do")) "do") with true. cbv beta iota zeta.
  unfold mbind, lift, get_handler. rewrite Hh. cbn [negb].
  destruct (find (fun kh => is_str (get a "action" PNone) (fst kh)) handlers) as [[k h']|] eqn:Hf.
  - apply find_some in Hf. destruct Hf as [Hin Hs]. simpl in Hs.
    rewrite Hk in Hs; [discriminate|]. apply in_map_iff. exists (k, h'). auto.
  - reflexivity.
Qed.








(** the top-zone test at that point holds: the four taps are issued *)
Example tap_compensation_top : 
  filter is_tap (fst (dispatch quiet_env (tap_action (PList [PInt 500; PInt 100])) 1080 2400))
  = [CTap 540 240 None; CTap 540 260 (Some c01); CTap 560 240 (Some c01);
     CTap 520 240 (Some c01)].
Proof. vm_compute. reflexivity. Qed.

(** C8 (claim as stated): refuted.  A failure of the handler that is not an
    [Exception] ([KeyboardInterrupt] raised in the takeover callback)
    passes through [execute] to its caller. *)
Lemma execute_propagates_base_signal :
  dispatch interrupted_env takeover_action 1080 2400 =
    ([CTakeover (PStr (u "User intervention required"))],
     Raise (BaseSignal (u "KeyboardInterrupt"))).
Proof. vm_compute. reflexivity. Qed.

(** C8 (amended): for a [do] action of a registered kind, every [Exception]
    the handler raises is caught by [execute] and turned into
    [ActionResult(success=False, should_finish=False, "Action failed: <e>")];
    the only failures [execute] lets through are [BaseException]s that are
    not [Exception]s ([KeyboardInterrupt], [SystemExit]), and every such
    failure of the handler does pass through [execute], unchanged. *)
Theorem execute_catches_exceptions : forall env a w h k,
  get a "_metadata" PNone = PStr (u "do") ->
  get a "action" PNone = PStr (u k) ->
  registered k = true ->
  (forall tr e, dispatch env a w h = (tr, Raise e) -> is_Exception e = false) /\
  (forall hnd tr e,
     get_handler (PStr (u k)) = Ok (Some hnd) ->
     run_handler env hnd a w h [] = (tr, Raise e) ->
     is_Exception e = true ->
     dispatch env a w h =
       (tr, Ok (AR false false (MFmt (Lit (u "Action failed: ") :: exn_msg e))))) /\
  (forall hnd tr e,
     get_handler (PStr (u k)) = Ok (Some hnd) ->
     run_handler env hnd a w h [] = (tr, Raise e) ->
     is_Exception e = false ->
     dispatch env a w h = (tr, Raise e)).
Proof.
  intros env a w h k Hm Ha Hk.
  destruct (get_handler_registered k Hk) as [hnd Hh].
  unfold dispatch. rewrite (execute_do env a w h k hnd [] Hm Ha Hh).
  unfold catch_exception. split.
  - intros tr e.
    destruct (run_handler env hnd a w h []) as [tr' [r|e']].
    + discriminate.
    + destruct (is_Exception e') eqn:He; [discriminate|].
      intro E. injection E as <- <-. exact He.
  - split; intros hnd' tr e Hh' Hrun He; rewrite Hh in Hh'; injection Hh' as <-;
      rewrite Hrun, He; reflexivity.
Qed.

Lemma execute_catches_exceptions_witness :
  let env c := match c with
               | CTakeover _ => Raise (OtherError (u "EOFError") [Lit (u "EOF when reading a line")])
               | _ => Ok PNone end in
  (forall tr e, dispatch env takeover_action 1080 2400 = (tr, Raise e) -> is_Exception e = false) /\
  (forall hnd tr e,
     get_handler (PStr (u "Take_over")) = Ok (Some hnd) ->
     run_handler env hnd takeover_action 1080 2400 [] = (tr, Raise e) ->
     is_Exception e = true ->
     dispatch env takeover_action 1080 2400 =
       (tr, Ok (AR false false (MFmt (Lit (u "Action failed: ") :: exn_msg e))))) /\
  (forall hnd tr e,
     get_handler (PStr (u "Take_over")) = Ok (Some hnd) ->
     run_handler env hnd takeover_action 1080 2400 [] = (tr, Raise e) ->
     is_Exception e = false ->
     dispatch env takeover_action 1080 2400 = (tr, Raise e)).
Proof.
  intro env.
  apply (execute_catches_exceptions env takeover_action 1080 2400 "Take_over");
    vm_compute; reflexivity.
Defined.

(** C2: for a [do] action whose kind is not registered, [execute] raises
    instead of returning [success=False, should_finish=False] when the kind
    value is unhashable: the [handlers.get] lookup sits outside the [try]. *)
Theorem execute_unhashable_kind_raises :
  dispatch quiet_env list_named_action 1080 2400 =
    ([], Raise (TypeError [Lit (u "unhashable type: '"); Lit (u "list"); Lit (u "'")])).
Proof. vm_compute. reflexivity. Qed.

(** ** Binary64 rounding and the coordinate conversion *)

Lemma round_ne_bound : forall N D, 0 < D ->
  - D <= 2 * (round_ne N D * D - N) <= D.
Proof.
  intros N D HD. unfold round_ne.
  pose proof (Z.div_mod N D ltac:(lia)) as Hdm.
  pose proof (Z.mod_pos_bound N D HD) as Hb.
  set (q := N / D) in *. set (r := N mod D) in *.
  destruct (Z.compare_spec (2 * r) D) as [E|E|E].
  - destruct (Z.even q); nia.
  - nia.
  - nia.
Qed.

Lemma round_ne_exact : forall N D, 0 < D -> N mod D = 0 -> round_ne N D = N / D.
Proof.
  intros N D HD Hm. unfold round_ne. rewrite Hm. simpl.
  destruct D; [lia| reflexivity | lia].
Qed.

Lemma scaled_pos : forall n d e, 0 < n -> 0 < d ->
  0 < fst (scaled n d e) /\ 0 < snd (scaled n d e).
Proof.
  intros n d e Hn Hd. unfold scaled. destruct (Z.leb_spec e 0); simpl.
  - split; [|lia]. apply Z.mul_pos_pos; [lia|]. apply Z.pow_pos_nonneg; lia.
  - split; [lia|]. apply Z.mul_pos_pos; [lia|]. apply Z.pow_pos_nonneg; lia.
Qed.

(** the pair of [scaled] at [e - 1] is the pair at [e] with its ratio doubled *)
Lemma scaled_pred : forall n d e,
  fst (scaled n d (e - 1)) * snd (scaled n d e) =
  2 * fst (scaled n d e) * snd (scaled n d (e - 1)).
Proof.
  intros n d e. unfold scaled.
  destruct (Z.leb_spec (e - 1) 0), (Z.leb_spec e 0); cbn [fst snd]; try lia.
  - replace (- (e - 1)) with (Z.succ (- e)) by lia.
    rewrite Z.pow_succ_r by lia. ring.
  - assert (e = 1) by lia. subst. rewrite Z.sub_diag, Z.pow_0_r, Z.pow_1_r. ring.
  - replace (2 ^ e) with (2 ^ Z.succ (e - 1)) by (f_equal; lia).
    rewrite Z.pow_succ_r by lia. ring.
Qed.

Lemma scaled_e0_range : forall n d, 0 < n -> 0 < d ->
  let e0 := Z.log2 n - Z.log2 d - 52 in
  2 ^ 51 * snd (scaled n d e0) < fst (scaled n d e0) < 2 ^ 53 * snd (scaled n d e0).
Proof.
  intros n d Hn Hd e0.
  pose proof (Z.log2_spec n Hn) as [Ha1 Ha2].
  pose proof (Z.log2_spec d Hd) as [Hb1 Hb2].
  pose proof (Z.log2_nonneg n). pose proof (Z.log2_nonneg d).
  rewrite Z.pow_succ_r in Ha2, Hb2 by lia.
  unfold scaled. destruct (Z.leb_spec e0 0) as [He|He]; cbn [fst snd].
  - assert (HP : 2 ^ (- e0) * 2 ^ Z.log2 n = 2 ^ 52 * 2 ^ Z.log2 d).
    { rewrite <- !Z.pow_add_r by lia. f_equal. unfold e0. lia. }
    assert (0 < 2 ^ (- e0)) by (apply Z.pow_pos_nonneg; lia).
    set (P := 2 ^ (- e0)) in *. set (A := 2 ^ Z.log2 n) in *. set (B := 2 ^ Z.log2 d) in *.
    split; nia.
  - assert (HQ : 2 ^ 52 * 2 ^ Z.log2 d * 2 ^ e0 = 2 ^ Z.log2 n).
    { rewrite <- !Z.pow_add_r by lia. f_equal. unfold e0. lia. }
    assert (0 < 2 ^ e0) by (apply Z.pow_pos_nonneg; lia).
    set (P := 2 ^ e0) in *. set (A := 2 ^ Z.log2 n) in *. set (B := 2 ^ Z.log2 d) in *.
    split; nia.
Qed.

(** In the normal range the exponent of [ulp_exp] puts [n / d] in
    [[2^52, 2^53)] units of [2^e]. *)
Lemma ulp_exp_normal : forall n d, 0 < n -> 0 < d -> d <= n * 2 ^ 1022 ->
  2 ^ 52 * snd (scaled n d (ulp_exp n d)) <= fst (scaled n d (ulp_exp n d)) <
  2 ^ 53 * snd (scaled n d (ulp_exp n d)).
Proof.
  intros n d Hn Hd Hnorm.
  pose proof (scaled_e0_range n d Hn Hd) as R0. cbv zeta in R0.
  set (e0 := Z.log2 n - Z.log2 d - 52) in *.
  assert (R1 : 2 ^ 52 * snd (scaled n d (if fst (scaled n d e0) <? 2 ^ 52 * snd (scaled n d e0)
                                          then e0 - 1 else e0))
               <= fst (scaled n d (if fst (scaled n d e0) <? 2 ^ 52 * snd (scaled n d e0)
                                   then e0 - 1 else e0))
               < 2 ^ 53 * snd (scaled n d (if fst (scaled n d e0) <? 2 ^ 52 * snd (scaled n d e0)
                                           then e0 - 1 else e0))).
  { destruct (Z.ltb_spec (fst (scaled n d e0)) (2 ^ 52 * snd (scaled n d e0))) as [L|L].
    - pose proof (scaled_pred n d e0) as Hp.
      pose proof (scaled_pos n d e0 Hn Hd). pose proof (scaled_pos n d (e0 - 1) Hn Hd).
      set (N0 := fst (scaled n d e0)) in *. set (D0 := snd (scaled n d e0)) in *.
      set (N1 := fst (scaled n d (e0 - 1))) in *. set (D1 := snd (scaled n d (e0 - 1))) in *.
      split; nia.
    - lia. }
  set (e1 := if fst (scaled n d e0) <? 2 ^ 52 * snd (scaled n d e0) then e0 - 1 else e0) in *.
  assert (Hul : ulp_exp n d = Z.max e1 (-1074)).
  { unfold ulp_exp. fold e0. destruct (scaled n d e0) as [N D] eqn:Es. reflexivity. }
  assert (He1 : -1074 <= e1).
  { destruct (Z.leb_spec (-1074) e1) as [|L]; [assumption|exfalso].
    unfold scaled in R1. destruct (Z.leb_spec e1 0); [|lia]. cbn [fst snd] in R1.
    assert (2 ^ 1075 <= 2 ^ (- e1)) by (apply Z.pow_le_mono_r; lia).
    assert (E : 2 ^ 1075 = 2 ^ 53 * 2 ^ 1022) by reflexivity.
    set (P := 2 ^ (- e1)) in *. set (T := 2 ^ 1022) in *.
    rewrite E in *. nia. }
  rewrite Hul, Z.max_l by lia. exact R1.
Qed.

Lemma fl_pos_rel : forall n d, 0 < n -> 0 < d -> d <= n * 2 ^ 1022 -> n <= d * 2 ^ 900 ->
  exists v, fl_pos n d = Fin v /\
    (2 ^ 53 - 1) * n * Z.pos (Qden v) <= 2 ^ 53 * Qnum v * d <= (2 ^ 53 + 1) * n * Z.pos (Qden v).
Proof.
  intros n d Hn Hd Hlo Hhi. unfold fl_pos.
  pose proof (ulp_exp_normal n d Hn Hd Hlo) as NR.
  pose proof (scaled_pos n d (ulp_exp n d) Hn Hd) as SP.
  set (e := ulp_exp n d) in *.
  destruct (scaled n d e) as [N D] eqn:ES. cbn [fst snd] in NR, SP.
  pose proof (round_ne_bound N D (proj2 SP)) as B.
  set (m := round_ne N D) in *.
  assert (Hm : m <= 2 ^ 53).
  { destruct (Z.le_gt_cases m (2 ^ 53)) as [|G]; [assumption|].
    assert ((m - 2 ^ 53 - 1) * D >= 0) by (apply Z.le_ge, Z.mul_nonneg_nonneg; lia). nia. }
  unfold scaled in ES. destruct (Z.leb_spec e 0) as [He|He]; injection ES as EN ED; subst N D.
  - assert (2 ^ 53 < 2 ^ (1024 - e)) by (apply Z.pow_lt_mono_r; lia).
    replace ((1024 - e <? 0) || (2 ^ (1024 - e) <=? m)) with false
      by (symmetry; apply orb_false_iff; split; [apply Z.ltb_ge | apply Z.leb_gt]; lia).
    eexists; split; [reflexivity|].
    assert (0 < 2 ^ (- e)) by (apply Z.pow_pos_nonneg; lia).
    unfold pow2q. destruct (Z.leb_spec 0 e).
    + assert (E0 : e = 0) by lia. rewrite E0 in *. cbn [Qnum Qden Qmult inject_Z Z.opp Pos.mul] in *. rewrite Z.pow_0_r in *. nia.
    + cbn [Qnum Qden Qmult inject_Z]. rewrite Pos.mul_1_l, Z2Pos.id by assumption.
      set (P := 2 ^ (- e)) in *. nia.
  - assert (0 < 2 ^ e) by (apply Z.pow_pos_nonneg; lia).
    assert (He2 : e <= 848).
    { assert (2 ^ (52 + e) <= 2 ^ 900).
      { rewrite Z.pow_add_r by lia. set (P := 2 ^ e) in *.
        apply (Z.mul_le_mono_pos_l _ _ d Hd).
        replace (d * (2 ^ 52 * P)) with (2 ^ 52 * (d * P)) by ring.
        apply (Z.le_trans _ n); [apply NR | exact Hhi]. }
      assert (52 + e <= 900) by (apply (Z.pow_le_mono_r_iff 2); lia). lia. }
    assert (2 ^ 53 < 2 ^ (1024 - e)) by (apply Z.pow_lt_mono_r; lia).
    replace ((1024 - e <? 0) || (2 ^ (1024 - e) <=? m)) with false
      by (symmetry; apply orb_false_iff; split; [apply Z.ltb_ge | apply Z.leb_gt]; lia).
    eexists; split; [reflexivity|].
    unfold pow2q. destruct (Z.leb_spec 0 e); [|lia].
    cbn [Qnum Qden Qmult inject_Z]. set (P := 2 ^ e) in *. nia.
Qed.

Lemma fl_pos_exact : forall n d z, 0 < d -> n = z * d -> 0 < z < 2 ^ 53 ->
  exists v, fl_pos n d = Fin v /\ Qnum v = z * Z.pos (Qden v).
Proof.
  intros n d z Hd En Hz.
  assert (Hn : 0 < n) by nia.
  assert (Hlo : d <= n * 2 ^ 1022) by (assert (1 <= 2 ^ 1022) by lia; nia).
  unfold fl_pos.
  pose proof (ulp_exp_normal n d Hn Hd Hlo) as NR.
  pose proof (scaled_pos n d (ulp_exp n d) Hn Hd) as SP.
  set (e := ulp_exp n d) in *.
  destruct (scaled n d e) as [N D] eqn:ES. cbn [fst snd] in NR, SP.
  unfold scaled in ES. destruct (Z.leb_spec e 0) as [He|He]; injection ES as EN ED; subst N D.
  - assert (0 < 2 ^ (- e)) by (apply Z.pow_pos_nonneg; lia).
    assert (Em : round_ne (n * 2 ^ (- e)) d = z * 2 ^ (- e)).
    { rewrite round_ne_exact by (try rewrite En; try lia;
        replace (z * d * 2 ^ (- e)) with ((z * 2 ^ (- e)) * d) by ring; apply Z.mod_mul; lia).
      rewrite En. replace (z * d * 2 ^ (- e)) with ((z * 2 ^ (- e)) * d) by ring.
      apply Z.div_mul; lia. }
    rewrite Em.
    assert (z * 2 ^ (- e) < 2 ^ (1024 - e)).
    { replace (1024 - e) with (971 + (53 + - e)) by lia.
      rewrite !Z.pow_add_r by lia. assert (1 <= 2 ^ 971) by lia. nia. }
    replace ((1024 - e <? 0) || (2 ^ (1024 - e) <=? z * 2 ^ (- e))) with false
      by (symmetry; apply orb_false_iff; split; [apply Z.ltb_ge | apply Z.leb_gt]; lia).
    eexists; split; [reflexivity|].
    unfold pow2q. destruct (Z.leb_spec 0 e).
    + assert (E0 : e = 0) by lia. rewrite E0 in *.
      cbn [Qnum Qden Qmult inject_Z Z.opp Pos.mul]. rewrite Z.pow_0_r. lia.
    + cbn [Qnum Qden Qmult inject_Z]. rewrite Pos.mul_1_l, Z2Pos.id by assumption. ring.
  - exfalso. assert (2 ^ 1 <= 2 ^ e) by (apply Z.pow_le_mono_r; lia).
    assert (2 ^ 52 * 2 * d <= z * d) by (rewrite <- En; change (2 ^ 1) with 2 in *; nia).
    nia.
Qed.


Lemma chain_bound : forall x w an A Pn Pd,
  0 < x -> 0 < w -> 0 < A -> 0 < Pd -> 0 <= an -> x * w < 2 ^ 51 ->
  (2 ^ 53 - 1) * x * A <= 2 ^ 53 * an * 1000 <= (2 ^ 53 + 1) * x * A ->
  (2 ^ 53 - 1) * (an * w) * Pd <= 2 ^ 53 * Pn * A <= (2 ^ 53 + 1) * (an * w) * Pd ->
  x * w * Pd - Pd < 1000 * Pn < x * w * Pd + Pd.
Proof.
  intros x w an A Pn Pd Hx Hw HA HPd Han Hxw [L1 U1] [L2 U2].
  assert (U : 2 ^ 106 * 1000 * Pn * A <= (2 ^ 53 + 1) * (2 ^ 53 + 1) * (x * w * Pd) * A).
  { apply (Z.le_trans _ ((2 ^ 53 + 1) * (w * Pd) * (2 ^ 53 * an * 1000))).
    - nia.
    - apply (Z.le_trans _ ((2 ^ 53 + 1) * (w * Pd) * ((2 ^ 53 + 1) * x * A))).
      + apply Z.mul_le_mono_nonneg_l; [nia | exact U1].
      + nia. }
  assert (L : (2 ^ 53 - 1) * (2 ^ 53 - 1) * (x * w * Pd) * A <= 2 ^ 106 * 1000 * Pn * A).
  { apply (Z.le_trans _ ((2 ^ 53 - 1) * (w * Pd) * (2 ^ 53 * an * 1000))).
    - apply (Z.le_trans _ ((2 ^ 53 - 1) * (w * Pd) * ((2 ^ 53 - 1) * x * A))).
      + nia.
      + apply Z.mul_le_mono_nonneg_l; [nia | exact L1].
    - nia. }
  apply Z.mul_le_mono_pos_r in U; [|lia].
  apply Z.mul_le_mono_pos_r in L; [|lia].
  set (T := x * w) in *.
  assert (0 <= T * Pd) by nia.
  assert (T * Pd < 2 ^ 51 * Pd) by nia.
  split; nia.
Qed.

Lemma near_trunc_of_bounds : forall t Pn Pd, 0 <= t -> 0 < Pd -> 0 <= Pn ->
  t * Pd - Pd < 1000 * Pn < t * Pd + Pd -> near_trunc t (Pn / Pd) = true.
Proof.
  intros t Pn Pd Ht HPd HPn [L U].
  unfold near_trunc. rewrite Z.quot_div_nonneg, Z.rem_mod_nonneg by lia.
  pose proof (Z.div_mod t 1000 ltac:(lia)) as Et.
  pose proof (Z.mod_pos_bound t 1000 ltac:(lia)) as Bt.
  pose proof (Z.div_mod Pn Pd ltac:(lia)) as Ep.
  pose proof (Z.mod_pos_bound Pn Pd ltac:(lia)) as Bp.
  set (k := t / 1000) in *. set (r := t mod 1000) in *.
  set (j := Pn / Pd) in *. set (s := Pn mod Pd) in *.
  assert (Hup : j <= k).
  { destruct (Z.le_gt_cases j k) as [|G]; [assumption|exfalso].
    assert ((j - k - 1) * Pd >= 0) by nia. nia. }
  destruct (Z.eq_dec r 0) as [R0|R0].
  - assert (Hlo : k - 1 <= j).
    { destruct (Z.le_gt_cases (k - 1) j) as [|G]; [assumption|exfalso].
      assert ((k - 2 - j) * Pd >= 0) by nia. nia. }
    destruct (Z.eq_dec j k) as [->|Nj]; [rewrite Z.eqb_refl; reflexivity|].
    apply orb_true_iff; right.
    assert (t <> 0).
    { intro T0. rewrite T0 in *. nia. }
    rewrite R0, Z.sgn_pos by lia. cbn.
    rewrite (proj2 (Z.eqb_neq t 0)) by assumption. cbn.
    apply Z.eqb_eq. lia.
  - assert (Hlo : k <= j).
    { destruct (Z.le_gt_cases k j) as [|G]; [assumption|exfalso].
      assert ((k - 1 - j) * Pd >= 0) by nia. nia. }
    replace j with k by lia. rewrite Z.eqb_refl. reflexivity.
Qed.

Lemma float_of_int_exact : forall z, 0 < z < 2 ^ 53 ->
  exists f, float_of_int z = Ok (Fin f) /\ Qnum f = z * Z.pos (Qden f).
Proof.
  intros z Hz. destruct (fl_pos_exact z 1 z) as [f [E Q]]; try lia.
  exists f. unfold float_of_int, round_q. cbn [Qnum Qden inject_Z].
  replace (z =? 0) with false by (symmetry; apply Z.eqb_neq; lia).
  replace (0 <? z) with true by (symmetry; apply Z.ltb_lt; lia).
  rewrite E. auto.
Qed.
Lemma scale_chain : forall n d x w, 0 < d -> n = x * d -> 0 < x <= 2 ^ 20 -> 0 < w < 2 ^ 31 ->
  exists fa fs fp, fl_pos n (d * 1000) = Fin fa /\ float_of_int w = Ok (Fin fs) /\
    0 < Qnum fa /\ 0 < Qnum fs /\
    fl_pos (Qnum fa * Qnum fs) (Z.pos (Qden fa * Qden fs)) = Fin fp /\
    0 <= Qnum fp /\ near_trunc (x * w) (Qnum fp / Z.pos (Qden fp)) = true.
Proof.
  intros n d x w Hd En Hx Hw. subst n.
  destruct (fl_pos_rel (x * d) (d * 1000) ltac:(nia) ltac:(lia) ltac:(nia) ltac:(nia))
    as [fa [Ea Ba]].
  destruct (float_of_int_exact w) as [fs [Es Qs]]; [lia|].
  set (an := Qnum fa) in *. set (A := Z.pos (Qden fa)) in *.
  set (sn := Qnum fs) in *. set (S := Z.pos (Qden fs)) in *.
  assert (HA : 0 < A) by apply Pos2Z.is_pos.
  assert (HS : 0 < S) by apply Pos2Z.is_pos.
  assert (L1 : (2 ^ 53 - 1) * x * A <= 2 ^ 53 * an * 1000)
    by (apply (Z.mul_le_mono_pos_r _ _ d); [lia | nia]).
  assert (U1 : 2 ^ 53 * an * 1000 <= (2 ^ 53 + 1) * x * A)
    by (apply (Z.mul_le_mono_pos_r _ _ d); [lia | nia]).
  assert (Han : 0 < an) by nia.
  assert (Han2 : A <= an * 2 ^ 63) by nia.
  assert (Han3 : an <= A * 2 ^ 30) by nia.
  assert (Ed : Z.pos (Qden fa * Qden fs) = A * S) by apply Pos2Z.inj_mul.
  destruct (fl_pos_rel (an * sn) (Z.pos (Qden fa * Qden fs))
              ltac:(nia) ltac:(lia) ltac:(rewrite Ed; nia) ltac:(rewrite Ed; nia))
    as [fp [Ep Bp]].
  rewrite Ed in Bp.
  set (Pn := Qnum fp) in *. set (Pd := Z.pos (Qden fp)) in *.
  assert (HPd : 0 < Pd) by apply Pos2Z.is_pos.
  assert (L2 : (2 ^ 53 - 1) * (an * w) * Pd <= 2 ^ 53 * Pn * A)
    by (apply (Z.mul_le_mono_pos_r _ _ S); [lia | nia]).
  assert (U2 : 2 ^ 53 * Pn * A <= (2 ^ 53 + 1) * (an * w) * Pd)
    by (apply (Z.mul_le_mono_pos_r _ _ S); [lia | nia]).
  assert (HPn : 0 <= Pn) by nia.
  exists fa, fs, fp.
  refine (conj Ea (conj Es (conj Han (conj _ (conj Ep (conj HPn _)))))); [lia|].
  apply (near_trunc_of_bounds (x * w) Pn Pd); [nia | exact HPd | exact HPn |].
  apply (chain_bound x w an A Pn Pd); [lia | lia | exact HA | exact HPd | lia | nia | | ].
  - split; assumption.
  - split; assumption.
Qed.

Lemma float_of_int_small : forall x, Z.abs x < 2 ^ 53 ->
  exists f, float_of_int x = Ok (Fin f) /\ Qnum f = x * Z.pos (Qden f).
Proof.
  intros x Hx. destruct (Z.lt_trichotomy x 0) as [N|[Z0|P]].
  - destruct (fl_pos_exact (- x) 1 (- x)) as [f [E Q]]; try lia.
    exists (- f)%Q. unfold float_of_int, round_q. cbn [Qnum Qden inject_Z].
    replace (x =? 0) with false by (symmetry; apply Z.eqb_neq; lia).
    replace (0 <? x) with false by (symmetry; apply Z.ltb_ge; lia).
    rewrite E. split; [reflexivity|]. cbn [Qopp Qnum Qden]. lia.
  - subst x. exists 0%Q. split; reflexivity.
  - apply float_of_int_exact. lia.
Qed.

Lemma near_trunc_opp : forall t a, near_trunc (- t) (- a) = near_trunc t a.
Proof.
  intros t a. unfold near_trunc.
  rewrite Z.quot_opp_l, Z.rem_opp_l, Z.sgn_opp by lia.
  assert (Hq : forall p q, (- p =? - q) = (p =? q)).
  { intros p q. apply Bool.eq_iff_eq_true. rewrite !Z.eqb_eq. lia. }
  rewrite Hq.
  replace (- Z.rem t 1000 =? 0) with (Z.rem t 1000 =? 0)
    by (apply Bool.eq_iff_eq_true; rewrite !Z.eqb_eq; lia).
  replace (- t =? 0) with (t =? 0)
    by (apply Bool.eq_iff_eq_true; rewrite !Z.eqb_eq; lia).
  replace (- Z.quot t 1000 - - Z.sgn t) with (- (Z.quot t 1000 - Z.sgn t)) by ring.
  rewrite Hq. reflexivity.
Qed.

Lemma scale_near : forall v x w, Qnum v = x * Z.pos (Qden v) -> Z.abs x <= 2 ^ 20 ->
  0 < w < 2 ^ 31 -> exists a, scale (Fin v) w = Ok a /\ near_trunc (x * w) a = true.
Proof.
  intros v x w Hv Hx Hw.
  unfold scale.
  assert (E : fdiv (Fin v) (Fin 1000) = Ok (round_q (v / 1000))) by reflexivity.
  rewrite E. cbn [rbind].
  assert (Hn : Qnum (v / 1000) = Qnum v * 1) by reflexivity.
  assert (Hd : Z.pos (Qden (v / 1000)) = Z.pos (Qden v) * 1000)
    by (rewrite <- Pos2Z.inj_mul; reflexivity).
  set (d := Z.pos (Qden v)) in *.
  assert (Hdp : 0 < d) by apply Pos2Z.is_pos.
  destruct (Z.lt_trichotomy x 0) as [N|[Z0|P]].
  - destruct (scale_chain ((- x) * d) d (- x) w Hdp eq_refl ltac:(lia) Hw)
      as [fa [fs [fp [Ea [Es [Ha [Hs [Ep [Hp Hnear]]]]]]]]].
    unfold round_q at 1. rewrite Hn, Hd, Hv.
    replace (x * d * 1 =? 0) with false by (symmetry; apply Z.eqb_neq; nia).
    replace (0 <? x * d * 1) with false by (symmetry; apply Z.ltb_ge; nia).
    replace (- (x * d * 1)) with (- x * d) by ring. rewrite Ea.
    cbn [fneg rbind]. rewrite Es. cbn [rbind fmul].
    unfold round_q. cbn [Qnum Qden Qmult Qopp].
    replace (- Qnum fa * Qnum fs =? 0) with false by (symmetry; apply Z.eqb_neq; nia).
    replace (0 <? - Qnum fa * Qnum fs) with false by (symmetry; apply Z.ltb_ge; nia).
    replace (- (- Qnum fa * Qnum fs)) with (Qnum fa * Qnum fs) by ring.
    rewrite Ep. cbn [fneg int_of_float Qopp Qnum Qden].
    eexists; split; [reflexivity|].
    rewrite Z.quot_opp_l by lia. rewrite Z.quot_div_nonneg by lia.
    replace (x * w) with (- (- x * w)) by ring. rewrite near_trunc_opp. exact Hnear.
  - subst x. destruct (float_of_int_exact w) as [fs [Es Qs]]; [lia|].
    unfold round_q at 1. rewrite Hn, Hv. cbn -[float_of_int]. exists 0. rewrite Es. split; reflexivity.
  - destruct (scale_chain (x * d) d x w Hdp eq_refl ltac:(lia) Hw)
      as [fa [fs [fp [Ea [Es [Ha [Hs [Ep [Hp Hnear]]]]]]]]].
    unfold round_q at 1. rewrite Hn, Hd, Hv.
    replace (x * d * 1 =? 0) with false by (symmetry; apply Z.eqb_neq; nia).
    replace (0 <? x * d * 1) with true by (symmetry; apply Z.ltb_lt; nia).
    rewrite Z.mul_1_r, Ea. cbn [rbind]. rewrite Es. cbn [rbind fmul].
    unfold round_q. cbn [Qnum Qden Qmult].
    replace (Qnum fa * Qnum fs =? 0) with false by (symmetry; apply Z.eqb_neq; nia).
    replace (0 <? Qnum fa * Qnum fs) with true by (symmetry; apply Z.ltb_lt; nia).
    rewrite Ep. cbn [int_of_float].
    eexists; split; [reflexivity|].
    rewrite Z.quot_div_nonneg by lia. exact Hnear.
Qed.

Lemma scale_exact_1000 : forall v w, Qnum v = 1000 * Z.pos (Qden v) -> 0 < w < 2 ^ 53 ->
  scale (Fin v) w = Ok w.
Proof.
  intros v w Hv Hw. unfold scale.
  assert (E : fdiv (Fin v) (Fin 1000) = Ok (round_q (v / 1000))) by reflexivity.
  rewrite E. cbn [rbind].
  assert (Hn : Qnum (v / 1000) = Qnum v * 1) by reflexivity.
  assert (Hd : Z.pos (Qden (v / 1000)) = Z.pos (Qden v) * 1000)
    by (rewrite <- Pos2Z.inj_mul; reflexivity).
  set (d := Z.pos (Qden v)) in *.
  assert (Hdp : 0 < d) by apply Pos2Z.is_pos.
  destruct (fl_pos_exact (Qnum v * 1) (d * 1000) 1) as [fa [Ea Qa]]; [lia | lia | lia |].
  destruct (float_of_int_exact w Hw) as [fs [Es Qs]].
  set (A := Z.pos (Qden fa)) in *. set (S := Z.pos (Qden fs)) in *.
  assert (0 < A) by apply Pos2Z.is_pos. assert (0 < S) by apply Pos2Z.is_pos.
  destruct (fl_pos_exact (Qnum fa * Qnum fs) (Z.pos (Qden fa * Qden fs)) w) as [fp [Ep Qp]];
    [lia | rewrite Pos2Z.inj_mul; fold A S; rewrite Qa, Qs; ring | lia |].
  unfold round_q at 1. rewrite Hn, Hd.
  replace (Qnum v * 1 =? 0) with false by (symmetry; apply Z.eqb_neq; lia).
  replace (0 <? Qnum v * 1) with true by (symmetry; apply Z.ltb_lt; lia).
  rewrite Ea. cbn [rbind]. rewrite Es. cbn [rbind fmul].
  unfold round_q. cbn [Qnum Qden Qmult].
  replace (Qnum fa * Qnum fs =? 0) with false by (symmetry; apply Z.eqb_neq; nia).
  replace (0 <? Qnum fa * Qnum fs) with true by (symmetry; apply Z.ltb_lt; nia).
  rewrite Ep. cbn [int_of_float]. rewrite Qp, Z.quot_mul by lia. reflexivity.
Qed.

Lemma convert_int_pair : forall x y w h fx fy,
  float_of_int x = Ok fx -> float_of_int y = Ok fy ->
  convert_relative_to_absolute (PList [PInt x; PInt y]) w h =
  (ax <- scale fx w ;; ay <- scale fy h ;; Ok (ax, ay)).
Proof.
  intros x y w h fx fy Ex Ey.
  unfold convert_relative_to_absolute, coord_float, to_float. cbn [rbind].
  rewrite Ex, Ey. reflexivity.
Qed.

(** C5 (amended): for integer relative coordinates of magnitude at most
    [2^20] and screen sizes in [(0, 2^31)], each absolute coordinate is
    [int(r * size / 1000)] computed exactly, except that when [r * size] is a
    non-zero multiple of 1000 it may be one unit closer to zero (the double
    rounding of [r / 1000 * size]); nothing is clamped.  [[500,500]] on
    [1000 x 2000] gives [(500,1000)], [[0,0]] maps to [(0,0)] and
    [[1000,1000]] to [(width, height)]. *)
Theorem convert_relative_to_absolute_trunc :
  convert_relative_to_absolute (PList [PInt 500; PInt 500]) 1000 2000 = Ok (500, 1000) /\
  forall w h, 0 < w < 2 ^ 31 -> 0 < h < 2 ^ 31 ->
  (forall x y, Z.abs x <= 2 ^ 20 -> Z.abs y <= 2 ^ 20 ->
   exists ax ay, convert_relative_to_absolute (PList [PInt x; PInt y]) w h = Ok (ax, ay) /\
                 near_trunc (x * w) ax = true /\ near_trunc (y * h) ay = true) /\
  convert_relative_to_absolute (PList [PInt 0; PInt 0]) w h = Ok (0, 0) /\
  convert_relative_to_absolute (PList [PInt 1000; PInt 1000]) w h = Ok (w, h).
Proof.
  split; [vm_compute; reflexivity|].
  intros w h Hw Hh.
  assert (G : forall x y, Z.abs x <= 2 ^ 20 -> Z.abs y <= 2 ^ 20 ->
   exists ax ay, convert_relative_to_absolute (PList [PInt x; PInt y]) w h = Ok (ax, ay) /\
                 near_trunc (x * w) ax = true /\ near_trunc (y * h) ay = true).
  { intros x y Hx Hy.
    destruct (float_of_int_small x ltac:(lia)) as [fx [Ex Qx]].
    destruct (float_of_int_small y ltac:(lia)) as [fy [Ey Qy]].
    rewrite (convert_int_pair x y w h _ _ Ex Ey).
    destruct (scale_near fx x w Qx Hx Hw) as [ax [Sx Nx]].
    destruct (scale_near fy y h Qy Hy Hh) as [ay [Sy Ny]].
    exists ax, ay. rewrite Sx. cbn [rbind]. rewrite Sy. cbn [rbind]. auto. }
  split; [exact G|split].
  - destruct (G 0 0 ltac:(lia) ltac:(lia)) as [ax [ay [E [Nx Ny]]]].
    rewrite E. unfold near_trunc in Nx, Ny. cbn in Nx, Ny.
    rewrite orb_false_r in Nx, Ny. apply Z.eqb_eq in Nx, Ny. subst. reflexivity.
  - destruct (float_of_int_exact 1000 ltac:(lia)) as [f [E Q]].
    rewrite (convert_int_pair _ _ w h _ _ E E).
    rewrite !scale_exact_1000 by (assumption || lia). reflexivity.
Qed.

Lemma convert_relative_to_absolute_trunc_witness :
  (0 < 1080 < 2 ^ 31 /\ 0 < 2400 < 2 ^ 31) /\
  convert_relative_to_absolute (PList [PInt 1000; PInt 1000]) 1080 2400 = Ok (1080, 2400).
Proof.
  split; [lia|].
  exact (proj2 (proj2 (proj2 convert_relative_to_absolute_trunc 1080 2400 ltac:(lia) ltac:(lia)))).
Defined.

(** C5: [[570, 570]] on a 100 x 100 screen gives [(56, 56)], not the
    truncated exact product [57]: [570 / 1000 * 100] is [56.99999999999999]
    in binary64. *)
Lemma convert_570_counterexample :
  convert_relative_to_absolute (PList [PInt 570; PInt 570]) 100 100 = Ok (56, 56) /\
  Z.quot (570 * 100) 1000 = 57.
Proof. split; vm_compute; reflexivity. Qed.

(** ** The textual point encoding *)

Lemma digits_value_app : forall l d, digits_value (l ++ [d]) = digits_value l * 10 + d.
Proof. intros. unfold digits_value. rewrite fold_left_app. reflexivity. Qed.

Lemma nat_digits_spec : forall f n, 0 <= n < 10 ^ Z.of_nat (S f) ->
  (n = 0 /\ nat_digits (S f) n = [0]) \/
  (0 < n /\ exists d ds, nat_digits (S f) n = d :: ds /\ 1 <= d <= 9 /\
     Forall (fun e => 0 <= e <= 9) ds /\ digits_value (d :: ds) = n).
Proof.
  induction f as [|f IH]; intros n Hn.
  - cbn [nat_digits]. replace (n <? 10) with true by (symmetry; apply Z.ltb_lt; cbn in Hn; lia).
    destruct (Z.eq_dec n 0) as [->|Nz]; [left; auto|].
    right. split; [lia|]. exists n, []. cbn in Hn. repeat split; try lia; auto.
  - change (nat_digits (S (S f)) n)
      with (if n <? 10 then [n] else nat_digits (S f) (n / 10) ++ [n mod 10]).
    destruct (Z.ltb_spec n 10).
    + destruct (Z.eq_dec n 0) as [->|Nz]; [left; auto|].
      right. split; [lia|]. exists n, []. repeat split; try lia; auto.
    + assert (H10 : 0 <= n / 10 < 10 ^ Z.of_nat (S f)).
      { rewrite (Nat2Z.inj_succ (S f)), Z.pow_succ_r in Hn by lia.
        split; [apply Z.div_pos; lia|]. apply Z.div_lt_upper_bound; lia. }
      destruct (IH (n / 10) H10) as [[E _]|[_ [d [ds [E [Hd [Hds Hv]]]]]]].
      * exfalso. assert (1 <= n / 10) by (apply Z.div_le_lower_bound; lia). lia.
      * right. split; [lia|]. rewrite E. exists d, (ds ++ [n mod 10]).
        repeat split; try lia.
        -- apply Forall_app; split; [assumption|].
           constructor; [|constructor]. pose proof (Z.mod_pos_bound n 10); lia.
        -- change (d :: ds ++ [n mod 10]) with ((d :: ds) ++ [n mod 10]).
           rewrite digits_value_app, Hv. pose proof (Z.div_mod n 10). lia.
Qed.

Lemma nat_digits_fuel : forall n, 0 <= n -> n < 10 ^ Z.of_nat (S (Z.to_nat (Z.log2 n))).
Proof.
  intros n Hn. rewrite Nat2Z.inj_succ, Z2Nat.id by apply Z.log2_nonneg.
  destruct (Z.eq_dec n 0) as [->|Nz]; [reflexivity|].
  pose proof (Z.log2_spec n ltac:(lia)) as [_ H].
  apply (Z.lt_le_trans _ _ _ H). apply Z.pow_le_mono_l. split; [lia|lia].
Qed.

Lemma digits_span_digits : forall ds tail,
  Forall (fun e => 0 <= e <= 9) ds ->
  (forall c t, tail = c :: t -> is_digit c = false) ->
  digits_span (map (fun d => 48 + d) ds ++ tail) = (ds, tail).
Proof.
  induction ds as [|d ds IH]; intros tail Hds Ht.
  - destruct tail as [|c t]; [reflexivity|]. cbn [map app digits_span].
    rewrite (Ht c t eq_refl). reflexivity.
  - inversion Hds; subst. cbn [map app digits_span].
    replace (is_digit (48 + d)) with true
      by (symmetry; unfold is_digit; apply andb_true_iff; split; apply Z.leb_le; lia).
    rewrite IH by assumption. unfold digit_val. f_equal. f_equal. ring.
Qed.

Lemma json_number_digits : forall (neg : bool) d ds c t,
  0 <= d <= 9 -> (d = 0 -> ds = []) -> Forall (fun e => 0 <= e <= 9) ds -> c = 44 \/ c = 93 ->
  json_number ((if neg then [45] else []) ++ map (fun e => 48 + e) (d :: ds) ++ c :: t) =
  Some (PInt (apply_sign neg (digits_value (d :: ds))), c :: t).
Proof.
  intros neg d ds c t Hd H0 Hds Hc.
  assert (Ht : forall c' t', c :: t = c' :: t' -> is_digit c' = false).
  { intros c' t' E. injection E as <- _. unfold is_digit. destruct Hc as [-> | ->]; reflexivity. }
  destruct (Z.eq_dec d 0) as [->|Hn0].
  { rewrite (H0 eq_refl). destruct Hc as [-> | ->]; destruct neg; reflexivity. }
  pose proof (digits_span_digits ds _ Hds Ht) as HR.
  cbn [app map].
  generalize dependent (map (fun e => 48 + e) ds ++ c :: t). intros R HR.
  assert (Hd' : d = 1 \/ d = 2 \/ d = 3 \/ d = 4 \/ d = 5 \/ d = 6 \/ d = 7 \/ d = 8 \/ d = 9)
    by lia.
  destruct Hc as [-> | ->]; repeat destruct Hd' as [-> | Hd']; subst;
  destruct neg; unfold json_number; cbn -[digits_span digits_value]; rewrite HR; reflexivity.
Qed.


Lemma str_int_num : forall x, exists neg d ds,
  str_int x = num_text neg (d :: ds) /\ 0 <= d <= 9 /\ (d = 0 -> ds = []) /\
  Forall (fun e => 0 <= e <= 9) ds /\ apply_sign neg (digits_value (d :: ds)) = x.
Proof.
  intros x. unfold str_int, num_text.
  pose proof (nat_digits_fuel (Z.abs x) (Z.abs_nonneg x)) as Hf.
  destruct (nat_digits_spec _ (Z.abs x) (conj (Z.abs_nonneg x) Hf))
    as [[E0 E]|[Hp [d [ds [E [Hd [Hds Hv]]]]]]].
  - rewrite E. exists false, 0, []. assert (x = 0) by lia. subst x.
    repeat split; auto; lia.
  - rewrite E. exists (x <? 0), d, ds. repeat split; auto; try lia.
    rewrite Hv. unfold apply_sign. destruct (Z.ltb_spec x 0); lia.
Qed.

Ltac digit_cases d :=
  let H := fresh in
  assert (H : d = 0 \/ d = 1 \/ d = 2 \/ d = 3 \/ d = 4 \/ d = 5 \/ d = 6 \/ d = 7 \/ d = 8 \/ d = 9)
    by lia;
  repeat destruct H as [-> | H]; [..|subst d].

Lemma num_skip_ws : forall (neg : bool) d R, 0 <= d <= 9 ->
  skip_ws ((if neg then [45] else []) ++ (48 + d) :: R) = (if neg then [45] else []) ++ (48 + d) :: R.
Proof. intros neg d R Hd. digit_cases d; destruct neg; reflexivity. Qed.

Lemma num_json_value : forall f (neg : bool) d R, 0 <= d <= 9 ->
  json_value (S f) ((if neg then [45] else []) ++ (48 + d) :: R) =
  json_number ((if neg then [45] else []) ++ (48 + d) :: R).
Proof. intros f neg d R Hd. digit_cases d; destruct neg; reflexivity. Qed.

Lemma num_not_close : forall f (neg : bool) d R, 0 <= d <= 9 ->
  match (if neg then [45] else []) ++ (48 + d) :: R with
  | 93 :: r' => Some (PList [], r')
  | r' => json_elements f [] r'
  end = json_elements f [] ((if neg then [45] else []) ++ (48 + d) :: R).
Proof. intros f neg d R Hd. digit_cases d; destruct neg; reflexivity. Qed.


Lemma json_value_bracket : forall f T,
  json_value (S f) (91 :: T) =
  match skip_ws T with 93 :: r' => Some (PList [], r') | r' => json_elements f [] r' end.
Proof. reflexivity. Qed.

Lemma json_elements_step : forall f acc s,
  json_elements (S f) acc s =
  match json_value f s with
  | None => None
  | Some (v, r) =>
    match skip_ws r with
    | 93 :: r' => Some (PList (rev (v :: acc)), r')
    | 44 :: r' => json_elements f (v :: acc) (skip_ws r')
    | _ => None
    end
  end.
Proof. reflexivity. Qed.

Lemma json_loads_point_text : forall x y,
  json_loads (point_text x y) = Ok (PList [PInt x; PInt y]).
Proof.
  intros x y.
  destruct (str_int_num x) as [nx [dx [dsx [Ex [Hdx [H0x [Hdsx Hvx]]]]]]].
  destruct (str_int_num y) as [ny [dy [dsy [Ey [Hdy [H0y [Hdsy Hvy]]]]]]].
  assert (Jy := json_number_digits ny dy dsy 93 [] Hdy H0y Hdsy (or_intror eq_refl)).
  assert (Jx := json_number_digits nx dx dsx 44 (32 :: num_text ny (dy :: dsy) ++ [93])
                  Hdx H0x Hdsx (or_introl eq_refl)).
  rewrite Hvy in Jy. rewrite Hvx in Jx.
  unfold point_text, json_loads. rewrite Ex, Ey.
  unfold num_text in *. cbn [map] in *. repeat rewrite <- app_assoc in *. cbn [app] in *.
  set (TY := (if ny then [45] else []) ++ 48 + dy :: map (fun e => 48 + e) dsy ++ [93]) in *.
  set (TX := (if nx then [45] else []) ++ 48 + dx :: map (fun e => 48 + e) dsx ++ 44 :: 32 :: TY) in *.
  assert (HL : Nat.le 4 (List.length (91 :: TX))).
  { subst TX TY. destruct nx; cbn [List.length app]; rewrite length_app; cbn [List.length];
    rewrite length_app; destruct ny; cbn [List.length app]; lia. }
  destruct (List.length (91 :: TX)) as [|[|[|[|k]]]]; try lia.
  change (skip_ws (91 :: TX)) with (91 :: TX).
  rewrite json_value_bracket.
  subst TX. rewrite num_skip_ws, num_not_close by exact Hdx.
  rewrite json_elements_step, num_json_value, Jx by exact Hdx.
  change (skip_ws (44 :: 32 :: TY)) with (44 :: 32 :: TY).
  change (skip_ws (32 :: TY)) with (skip_ws TY).
  cbv beta iota. change (skip_ws (32 :: TY)) with (skip_ws TY).   subst TY. rewrite num_skip_ws by exact Hdy.
  rewrite json_elements_step, num_json_value, Jy by exact Hdy.
  reflexivity.
Qed.

(** C6: the bracketed text [str([x, y])] of any two integers of at most
    4300 digits converts to the same point (or the same exception) as the
    list [[x, y]] itself; in particular ["[10, 20]"] and [[10, 20]] both give
    [(1, 2)] on a 100x100 screen.  (Longer integers make [json.loads] raise
    [ValueError] under CPython's digit limit, while [x * width / 1000] on
    the list form raises [OverflowError]; the bound keeps to the inputs
    where both forms reach the conversion.) *)
Theorem convert_point_text :
  (forall x y w h, Z.abs x < 10 ^ 4300 -> Z.abs y < 10 ^ 4300 ->
     convert_relative_to_absolute (PStr (point_text x y)) w h =
     convert_relative_to_absolute (PList [PInt x; PInt y]) w h) /\
  convert_relative_to_absolute (PStr (u "[10, 20]")) 100 100 = Ok (1, 2) /\
  convert_relative_to_absolute (PList [PInt 10; PInt 20]) 100 100 = Ok (1, 2).
Proof.
  split; [|split; vm_compute; reflexivity].
  intros x y w h _ _. unfold convert_relative_to_absolute, decode_element.
  rewrite json_loads_point_text. reflexivity.
Qed.

Lemma convert_point_text_witness :
  Z.abs (-7) < 10 ^ 4300 /\ Z.abs 1234 < 10 ^ 4300 /\
  convert_relative_to_absolute (PStr (point_text (-7) 1234)) 1080 2400 =
  convert_relative_to_absolute (PList [PInt (-7); PInt 1234]) 1080 2400.
Proof.
  assert (Hx : Z.abs (-7) < 10 ^ 4300) by (rewrite Z.abs_neq by lia; apply (Z.lt_le_trans _ 10); [lia|];
    apply (Z.pow_le_mono_r 10 1 4300); lia).
  assert (Hy : Z.abs 1234 < 10 ^ 4300) by (rewrite Z.abs_eq by lia; apply (Z.lt_le_trans _ (10 ^ 4)); [reflexivity|];
    apply Z.pow_le_mono_r; lia).
  split; [exact Hx|]. split; [exact Hy|].
  exact (proj1 convert_point_text (-7) 1234 1080 2400 Hx Hy).
Defined.

(** ** [parse_action] *)

Lemma first_surrogate_none : forall s i,
  forallb (fun c => negb (is_surrogate c)) s = true -> first_surrogate i s = None.
Proof.
  induction s as [|c s IH]; intros i H; [reflexivity|].
  cbn in H |- *. apply andb_true_iff in H as [Hc H].
  destruct (is_surrogate c); [discriminate|]. exact (IH _ H).
Qed.

Lemma lit_ok_no_surrogate : forall k, Forall (fun c => lit_ok c = true) k ->
  forallb (fun c => negb (is_surrogate c)) k = true.
Proof.
  intros k Hk. induction Hk as [|c k Hc Hk IH]; [reflexivity|].
  cbn [forallb]. rewrite IH, andb_true_r. unfold lit_ok in Hc.
  destruct (is_surrogate c); [rewrite !orb_true_r in Hc; discriminate|reflexivity].
Qed.

(** a text made of a fixed ASCII frame around a one-line literal holds no
    surrogate, so [eval] goes on to compile it *)
Lemma first_surrogate_frame : forall p k q, Forall (fun c => lit_ok c = true) k ->
  forallb (fun c => negb (is_surrogate c)) p = true ->
  forallb (fun c => negb (is_surrogate c)) q = true ->
  first_surrogate 0 (p ++ k ++ q) = None.
Proof.
  intros p k q Hk Hp Hq. apply first_surrogate_none.
  rewrite !forallb_app, Hp, Hq, (lit_ok_no_surrogate k Hk). reflexivity.
Qed.

Lemma span_lit : forall q k rest, Forall (fun c => lit_ok c = true) k -> (q = 39 \/ q = 34) ->
  span (fun c => negb ((c =? q) || (c =? 92) || (c =? 10) || (c =? 13) || (c =? 0))) (k ++ q :: rest)
  = (k, q :: rest).
Proof.
  intros q k rest Hk Hq. induction Hk as [|c k Hc Hk IH].
  - cbn. rewrite Z.eqb_refl. reflexivity.
  - cbn [app span]. unfold lit_ok in Hc.
    replace (negb ((c =? q) || (c =? 92) || (c =? 10) || (c =? 13) || (c =? 0))) with true.
    + rewrite IH. reflexivity.
    + destruct Hq as [-> | ->];
      destruct (c =? 39) eqn:E1, (c =? 34) eqn:E2, (c =? 92), (c =? 10), (c =? 13), (c =? 0);
      cbn in Hc |- *; try discriminate; reflexivity.
Qed.

Lemma tokenize_str : forall f k rest, k <> [] -> Forall (fun c => lit_ok c = true) k ->
  tokenize (S f) (39 :: k ++ 39 :: rest) = option_map (cons (TStr k)) (tokenize f rest).
Proof.
  intros f k rest Hne Hk.
  destruct k as [|c0 k']; [congruence|].
  assert (Hc0 : (c0 =? 39) = false).
  { inversion Hk; subst. unfold lit_ok in H1. destruct (c0 =? 39); [discriminate|reflexivity]. }
  assert (Hb : string_body 39 ((c0 :: k') ++ 39 :: rest) = Some (c0 :: k', rest)).
  { unfold string_body. rewrite span_lit by auto. rewrite Z.eqb_refl. reflexivity. }
  cbn [tokenize]. cbn [Z.eqb Pos.eqb orb].
  cbn [app] in Hb |- *.
  destruct (k' ++ 39 :: rest) as [|q' t] eqn:E.
  - rewrite Hb. reflexivity.
  - rewrite Hc0. cbn [andb]. rewrite Hb. reflexivity.
Qed.

Lemma tokenize_do_action : forall f rest,
  tokenize (S (S (S (S (S f))))) (100 :: 111 :: 40 :: 97 :: 99 :: 116 :: 105 :: 111 :: 110 :: 61 :: 39 :: rest)
  = option_map (cons (TName (u "do"))) (option_map (cons TLPar)
      (option_map (cons (TName (u "action"))) (option_map (cons TEq) (tokenize (S f) (39 :: rest))))).
Proof. reflexivity. Qed.

Lemma py_eval_do_action : forall k, k <> [] -> Forall (fun c => lit_ok c = true) k ->
  py_eval (u "do(action='" ++ k ++ u "')") [] =
  Some ([], Ok (PDict [(u "action", PStr k); (u "_metadata", PStr (u "do"))])).
Proof.
  intros k Hne Hk. unfold py_eval.
  rewrite first_surrogate_frame by (assumption || reflexivity).
  change (u "do(action='") with [100;111;40;97;99;116;105;111;110;61;39].
  change (u "')") with [39;41].
  cbn [app List.length].
  rewrite tokenize_do_action, tokenize_str by assumption.
  generalize (Datatypes.length (k ++ [39; 41])). intros n.
  vm_compute. reflexivity.
Qed.

Lemma startswith_in : forall p s c, startswith s p = true -> In c p -> In c s.
Proof.
  induction p as [|a p IH]; intros s c Hs Hc; [destruct Hc|].
  destruct s as [|d s']; [discriminate|].
  cbn [startswith] in Hs. apply andb_true_iff in Hs as [Ha Hs]. apply Z.eqb_eq in Ha. subst d.
  destruct Hc as [<- | Hc]; [left; reflexivity|right; exact (IH s' c Hs Hc)].
Qed.

Lemma replace_fuel_absent : forall f c old new s, In c old -> ~ In c s ->
  replace_fuel f old new s = s.
Proof.
  induction f as [|f IH]; intros c old new s Ho Hc; [reflexivity|].
  destruct s as [|d s']; [reflexivity|].
  cbn [replace_fuel].
  destruct (startswith (d :: s') old) eqn:E.
  - exfalso. exact (Hc (startswith_in old _ c E Ho)).
  - rewrite (IH c) by (auto; intros H; apply Hc; right; exact H). reflexivity.
Qed.

Lemma replace_absent : forall c old new s, In c old -> ~ In c s -> replace s old new = s.
Proof. intros c old new s Ho Hc. exact (replace_fuel_absent _ c old new s Ho Hc). Qed.


Lemma line_ok_not_in : forall s c, Forall (fun c => line_ok c = true) s ->
  (c = 10 \/ c = 62 \/ c = 123) -> ~ In c s.
Proof.
  intros s c Hs Hc Hin. rewrite Forall_forall in Hs. specialize (Hs c Hin).
  unfold line_ok in Hs. destruct Hc as [-> | [-> | ->]]; discriminate.
Qed.

Lemma clean_id : forall s, Forall (fun c => line_ok c = true) s -> strip s = s -> clean s = s.
Proof.
  intros s Hs Hst. unfold clean. rewrite Hst.
  assert (H62 := line_ok_not_in s 62 Hs ltac:(auto)).
  assert (H123 := line_ok_not_in s 123 Hs ltac:(auto)).
  unfold cleanup_tags. cbn [fold_left].
  repeat first [rewrite (replace_absent 62 _ [] s) by (assumption || (vm_compute; tauto)) |
                rewrite (replace_absent 123 _ [] s) by (assumption || (vm_compute; tauto))].
  reflexivity.
Qed.

Lemma no_long_digit_run : forall s r, Forall (fun c => line_ok c = true) s ->
  long_digit_run_from r s = false.
Proof.
  induction s as [|c s IH]; intros r Hs; [reflexivity|].
  inversion Hs as [|? ? Hc Hs']; subst. cbn [long_digit_run_from].
  unfold line_ok in Hc. destruct (is_digit c); [rewrite !orb_true_r in Hc; discriminate|].
  apply IH; assumption.
Qed.

Lemma split_on_absent : forall sep s, ~ In sep s -> split_on sep s = [s].
Proof.
  intros sep s. induction s as [|c s IH]; intros Hs; [reflexivity|].
  cbn [split_on]. replace (c =? sep) with false
    by (symmetry; apply Z.eqb_neq; intros ->; apply Hs; left; reflexivity).
  rewrite IH; [reflexivity|]. intros H; apply Hs; right; exact H.
Qed.

Lemma strip_id : forall c m d, is_space c = false -> is_space d = false ->
  strip (c :: m ++ [d]) = c :: m ++ [d].
Proof.
  intros c m d Hc Hd. unfold strip. cbn [lstrip]. rewrite Hc.
  change (c :: m ++ [d]) with ((c :: m) ++ [d]). rewrite rev_app_distr. cbn [rev app lstrip].
  rewrite Hd. change (d :: rev m ++ [c]) with ([d] ++ rev m ++ [c]).
  rewrite !rev_app_distr, rev_involutive. reflexivity.
Qed.

Lemma parse_action_call_line : forall s,
  startswith s (u "do(") = true -> Forall (fun c => line_ok c = true) s -> strip s = s ->
  parse_action s =
  obind (py_eval s []) (fun '(out, r) =>
    match r with
    | Ok v => Some (out, Ok v)
    | Raise _ => option_map (fun r => (out, r)) (wait_heuristic s)
    end).
Proof.
  intros s Hdo Hs Hst.
  assert (Hc : clean s = s) by (apply clean_id; assumption).
  assert (Hv : valid_lines s = [s]).
  { unfold valid_lines. rewrite Hc, split_on_absent by (apply (line_ok_not_in s 10 Hs); auto).
    cbn [map]. rewrite Hst. cbn [filter].
    change (u "do(") with [100; 111; 40] in Hdo.
    destruct s as [|a [|b [|c t]]]; cbn [startswith] in Hdo;
      rewrite ?andb_false_r in Hdo; try discriminate.
    apply andb_true_iff in Hdo as [Ha Hdo].
    apply andb_true_iff in Hdo as [Hb Hdo]. apply andb_true_iff in Hdo as [Hc' _].
    apply Z.eqb_eq in Ha, Hb, Hc'. subst a b c. reflexivity. }
  unfold parse_action, parsed_actions. rewrite Hc, no_long_digit_run by assumption.
  rewrite Hv. cbn [filter]. unfold is_action_line. rewrite Hdo. cbn [orb].
  cbn [try_each]. unfold parse_single_action. rewrite Hst, Hdo. cbn [orb].
  destruct (py_eval s []) as [[out [v|e]]|]; cbn [obind option_map]; try reflexivity.
Qed.

Lemma startswith_app : forall pre p x, startswith p pre = true -> startswith (p ++ x) pre = true.
Proof.
  induction pre as [|a pre IH]; intros p x H; [destruct (p ++ x); reflexivity|].
  destruct p as [|c p]; [discriminate|]. cbn [startswith app] in H |- *.
  apply andb_true_iff in H as [H1 H2]. rewrite H1, (IH _ _ H2). reflexivity.
Qed.

Lemma call_line_shape : forall p k q,
  startswith p (u "do(") = true -> Forall (fun c => line_ok c = true) p ->
  Forall (fun c => line_ok c = true) k -> Forall (fun c => line_ok c = true) q ->
  let s := p ++ k ++ q ++ [41] in
  startswith s (u "do(") = true /\ Forall (fun c => line_ok c = true) s /\ strip s = s.
Proof.
  intros p k q Hp Hpl Hk Hq s. subst s.
  split; [apply startswith_app; exact Hp|]. split.
  - repeat (apply Forall_app; split); auto.
  - destruct p as [|c p']; [discriminate|].
    change (u "do(") with [100; 111; 40] in Hp. cbn [startswith] in Hp.
    apply andb_true_iff in Hp as [Hc _]. apply Z.eqb_eq in Hc. subst c.
    replace ((100 :: p') ++ k ++ q ++ [41]) with (100 :: (p' ++ k ++ q) ++ [41])
      by (cbn [app]; rewrite <- !app_assoc; reflexivity).
    apply strip_id; reflexivity.
Qed.


(** [do(action='Tap')] parses without error into an action with no
    [element]; only its dispatch reports the missing coordinates. *)
Lemma parse_action_missing_payload_counterexample :
  parse_action (u "do(action='Tap')") = Some ([], Ok (PDict (do_call_dict (u "Tap")))) /\
  dispatch quiet_env (do_call_dict (u "Tap")) 1080 2400 =
    ([], Ok (AR false false (lit "No element coordinates"))).
Proof. split; vm_compute; reflexivity. Qed.

(** C1: [parse_action] does not check the payload of a [do(...)] call.  For
    every action name [k] written as a plain one-line literal,
    [do(action='k')] parses, printing nothing, into [{action: k, _metadata:
    do}] with no other field.  A missing payload is only noticed at
    dispatch: there [Tap], [Double Tap] and [Long Press] return
    [success=false, should_finish=false] with "No element coordinates",
    [Swipe] with "Missing swipe coordinates" and [Launch] with "No app name
    specified", in every environment and without calling any device
    primitive. *)
Theorem parse_action_accepts_missing_payload :
  (forall k, k <> [] -> Forall (fun c => lit_ok c = true /\ line_ok c = true) k ->
     parse_action (u "do(action='" ++ k ++ u "')") = Some ([], Ok (PDict (do_call_dict k)))) /\
  (forall env w h kind, In kind ["Tap"; "Double Tap"; "Long Press"]%string ->
     dispatch env (do_call_dict (u kind)) w h =
       ([], Ok (AR false false (lit "No element coordinates")))) /\
  (forall env w h, dispatch env (do_call_dict (u "Swipe")) w h =
       ([], Ok (AR false false (lit "Missing swipe coordinates")))) /\
  (forall env w h, dispatch env (do_call_dict (u "Launch")) w h =
       ([], Ok (AR false false (lit "No app name specified")))).
Proof.
  split; [|split; [|split]].
  - intros k Hne Hk.
    assert (Hl : Forall (fun c => lit_ok c = true) k) by exact (Forall_impl _ (fun c H => proj1 H) Hk).
    assert (Hn : Forall (fun c => line_ok c = true) k) by exact (Forall_impl _ (fun c H => proj2 H) Hk).
    destruct (call_line_shape (u "do(action='") k [39] eq_refl
                ltac:(vm_compute; repeat constructor) Hn ltac:(repeat constructor)) as [H1 [H2 H3]].
    change (u "')") with ([39] ++ [41]).
    rewrite (parse_action_call_line _ H1 H2 H3).
    change ([39] ++ [41]) with (u "')").
    rewrite py_eval_do_action by assumption.
    reflexivity.
  - intros env w h kind Hk. destruct Hk as [<- | [<- | [<- | []]]]; reflexivity.
  - intros env w h. reflexivity.
  - intros env w h. reflexivity.
Qed.

Lemma parse_action_accepts_missing_payload_witness :
  (u "Long Press") <> [] /\
  parse_action (u "do(action='" ++ u "Long Press" ++ u "')") =
    Some ([], Ok (PDict (do_call_dict (u "Long Press")))).
Proof.
  assert (Hne : u "Long Press" <> []) by discriminate.
  split; [exact Hne|].
  apply (proj1 parse_action_accepts_missing_payload); [exact Hne|].
  vm_compute. repeat constructor.
Defined.

Lemma tokenize_do_print : forall f rest,
  tokenize (S (S (S (S (S (S (S (S (S (S (S (S f))))))))))))
    (100 :: 111 :: 40 :: 97 :: 99 :: 116 :: 105 :: 111 :: 110 :: 61 :: 39 :: 66 :: 97 :: 99 :: 107 :: 39 :: 44 ::
     32 :: 110 :: 111 :: 116 :: 101 :: 61 :: 112 :: 114 :: 105 :: 110 :: 116 :: 40 :: 39 :: rest)
  = option_map (cons (TName (u "do"))) (option_map (cons TLPar)
      (option_map (cons (TName (u "action"))) (option_map (cons TEq)
      (option_map (cons (TStr (u "Back"))) (option_map (cons TComma)
      (option_map (cons (TName (u "note"))) (option_map (cons TEq)
      (option_map (cons (TName (u "print"))) (option_map (cons TLPar)
        (tokenize (S f) (39 :: rest))))))))))).
Proof. reflexivity. Qed.


Lemma py_eval_do_print : forall k, k <> [] -> Forall (fun c => lit_ok c = true) k ->
  py_eval (u "do(action='Back', note=print('" ++ k ++ u "'))") [] =
  Some ([k], Ok (PDict noted_back)).
Proof.
  intros k Hne Hk. unfold py_eval.
  rewrite first_surrogate_frame by (assumption || reflexivity).
  change (u "do(action='Back', note=print('") with [100; 111; 40; 97; 99; 116; 105; 111; 110; 61; 39; 66; 97; 99; 107; 39; 44;
 32; 110; 111; 116; 101; 61; 112; 114; 105; 110; 116; 40; 39].
  change (u "'))") with [39;41;41].
  cbn [app List.length].
  rewrite tokenize_do_print, tokenize_str by assumption.
  generalize (Datatypes.length (k ++ [39; 41; 41])). intros n.
  vm_compute. reflexivity.
Qed.

(** a [print] call in an argument of [do(...)] runs while the line is
    parsed *)
Lemma parse_action_runs_embedded_call_counterexample :
  parse_action (u "do(action='Back', note=print('pwned'))") =
    Some ([u "pwned"], Ok (PDict noted_back)).
Proof. vm_compute. reflexivity. Qed.

(** C9: a call line is handed to Python's [eval], so an argument value can
    be any expression and the calls in it run during parsing.  For every
    one-line literal [k], parsing [do(action='Back', note=print('k'))]
    writes [k] to standard output and returns [{action: Back, note: None,
    _metadata: do}]. *)
Theorem parse_action_runs_embedded_call : forall k,
  k <> [] -> Forall (fun c => lit_ok c = true /\ line_ok c = true) k ->
  parse_action (u "do(action='Back', note=print('" ++ k ++ u "'))") =
    Some ([k], Ok (PDict noted_back)).
Proof.
  intros k Hne Hk.
  assert (Hl : Forall (fun c => lit_ok c = true) k) by exact (Forall_impl _ (fun c H => proj1 H) Hk).
  assert (Hn : Forall (fun c => line_ok c = true) k) by exact (Forall_impl _ (fun c H => proj2 H) Hk).
  destruct (call_line_shape (u "do(action='Back', note=print('") k [39; 41] eq_refl
              ltac:(vm_compute; repeat constructor) Hn ltac:(repeat constructor)) as [H1 [H2 H3]].
  change (u "'))") with ([39; 41] ++ [41]).
  rewrite (parse_action_call_line _ H1 H2 H3).
  change ([39; 41] ++ [41]) with (u "'))").
  rewrite py_eval_do_print by assumption.
  reflexivity.
Qed.

Lemma parse_action_runs_embedded_call_witness :
  u "side effect" <> [] /\
  parse_action (u "do(action='Back', note=print('" ++ u "side effect" ++ u "'))") =
    Some ([u "side effect"], Ok (PDict noted_back)).
Proof.
  assert (Hne : u "side effect" <> []) by discriminate.
  split; [exact Hne|].
  apply parse_action_runs_embedded_call; [exact Hne|].
  vm_compute. repeat constructor.
Defined.



(** C7: a response with no extractable action but with waiting vocabulary
    becomes a [Wait] action: "页面正在加载中" gives the default duration
    "2 seconds" and "等待 5 秒" gives "5 seconds".  When the line strategies
    extract at least one action, the heuristic is not consulted: the result
    is that action, or the list of them. *)
Theorem parse_action_wait_heuristic :
  parsed_actions (u "页面正在加载中") = Some ([], []) /\
  parse_action (u "页面正在加载中") = Some ([], Ok (wait_dict "2 seconds")) /\
  parsed_actions (u "等待 5 秒") = Some ([], []) /\
  parse_action (u "等待 5 秒") = Some ([], Ok (wait_dict "5 seconds")) /\
  (forall r out vs, parsed_actions r = Some (out, vs) -> vs <> [] ->
     parse_action r = Some (out, Ok (match vs with [v] => v | _ => PList vs end))).
Proof.
  split; [vm_compute; reflexivity|]. split; [vm_compute; reflexivity|].
  split; [vm_compute; reflexivity|]. split; [vm_compute; reflexivity|].
  intros r out vs H Hne. unfold parse_action. rewrite H. cbn [obind].
  destruct vs as [|v [|v' vs]]; [congruence|reflexivity|reflexivity].
Qed.

Lemma parse_action_wait_heuristic_witness :
  parsed_actions two_lines = Some ([], [PDict (do_call_dict (u "Back")); PDict (do_call_dict (u "Home"))]) /\
  parse_action two_lines = Some ([], Ok (PList [PDict (do_call_dict (u "Back")); PDict (do_call_dict (u "Home"))])).
Proof.
  assert (H : parsed_actions two_lines =
              Some ([], [PDict (do_call_dict (u "Back")); PDict (do_call_dict (u "Home"))]))
    by (vm_compute; reflexivity).
  split; [exact H|].
  exact (proj2 (proj2 (proj2 (proj2 parse_action_wait_heuristic))) _ _ _ H ltac:(discriminate)).
Defined.


(** ** Further behaviour of [execute], [_convert_relative_to_absolute], [parse_action], [do] and [finish] *)

Lemma all_ok_adb_env : forall c, exists v, adb_env c = Ok v.
Proof. intros []; eexists; reflexivity. Qed.

Lemma bound_7 : Z.abs (-7) < 10 ^ 4300.
Proof.
  rewrite Z.abs_neq by lia. apply (Z.lt_le_trans _ 10); [lia|].
  apply (Z.pow_le_mono_r 10 1 4300); lia.
Qed.

Lemma bound_1234 : Z.abs 1234 < 10 ^ 4300.
Proof.
  rewrite Z.abs_eq by lia. apply (Z.lt_le_trans _ (10 ^ 4)); [reflexivity|].
  apply Z.pow_le_mono_r; lia.
Qed.

Lemma nondigit_check : forall s,
  forallb (fun c => match re_digit c with Some false => true | _ => false end) s = true ->
  Forall (fun c => re_digit c = Some false) s.
Proof.
  induction s as [|c s IH]; intros H; constructor; cbn in H;
    destruct (re_digit c) as [[]|]; try discriminate; auto.
Qed.

(** the dispatch of a [do] action whose kind is the registered name [k] *)
Lemma dispatch_kind : forall env a w h k hnd,
  get a "_metadata" PNone = PStr (u "do") ->
  get a "action" PNone = PStr (u k) ->
  get_handler (PStr (u k)) = Ok (Some hnd) ->
  dispatch env a w h = catch_exception (run_handler env hnd a w h) [].
Proof. intros. unfold dispatch. eapply execute_do; eassumption. Qed.

(** A [Type] or [Type_Name] action whose device calls all succeed saves and
    switches the keyboard, clears the field, types the [text] field (the
    empty string when it is absent) and restores the saved keyboard, with a
    one second sleep after each of the four steps, and succeeds. *)
Theorem execute_type_sequence : forall env a w h k ime,
  get a "_metadata" PNone = PStr (u "do") ->
  In k ["Type"; "Type_Name"]%string -> get a "action" PNone = PStr (u k) ->
  env CSetKeyboard = Ok ime ->
  (forall c, exists v, env c = Ok v) ->
  dispatch env a w h =
    ([CSetKeyboard; CSleep (Fin 1); CClearText; CSleep (Fin 1);
      CTypeText (get a "text" (PStr [])); CSleep (Fin 1);
      CRestoreKeyboard ime; CSleep (Fin 1)],
     Ok (AR true false (MVal PNone))).
Proof.
  intros env a w h k ime Hm Hk Ha Hime Henv.
  rewrite (dispatch_kind env a w h k HType Hm Ha)
    by (destruct Hk as [<- | [<- | []]]; reflexivity).
  destruct (Henv (CSleep (Fin 1))) as [v1 E1].
  destruct (Henv CClearText) as [v2 E2].
  destruct (Henv (CTypeText (get a "text" (PStr [])))) as [v3 E3].
  destruct (Henv (CRestoreKeyboard ime)) as [v4 E4].
  unfold catch_exception. cbn [run_handler]. unfold handle_type, sleep, mbind, ext, mret.
  rewrite Hime, E1, E2, E3, E4. reflexivity.
Qed.

Lemma execute_type_sequence_witness :
  dispatch adb_env type_act 1080 2400 =
    ([CSetKeyboard; CSleep (Fin 1); CClearText; CSleep (Fin 1);
      CTypeText (get type_act "text" (PStr [])); CSleep (Fin 1);
      CRestoreKeyboard (PStr (u "com.android.adbkeyboard/.AdbIME")); CSleep (Fin 1)],
     Ok (AR true false (MVal PNone))).
Proof.
  apply (execute_type_sequence adb_env type_act 1080 2400 "Type_Name");
    [reflexivity | right; left; reflexivity | reflexivity | reflexivity | exact all_ok_adb_env].
Defined.

(** When typing the text raises an [Exception], [_handle_type] stops there:
    the keyboard saved before is never restored and no further sleep
    happens, and [execute] reports [Action failed: <error>]. *)
Theorem execute_type_failure_keeps_keyboard : forall env a w h k ime v1 v2 e,
  get a "_metadata" PNone = PStr (u "do") ->
  In k ["Type"; "Type_Name"]%string -> get a "action" PNone = PStr (u k) ->
  env CSetKeyboard = Ok ime -> env (CSleep (Fin 1)) = Ok v1 -> env CClearText = Ok v2 ->
  env (CTypeText (get a "text" (PStr []))) = Raise e -> is_Exception e = true ->
  dispatch env a w h =
    ([CSetKeyboard; CSleep (Fin 1); CClearText; CSleep (Fin 1);
      CTypeText (get a "text" (PStr []))],
     Ok (AR false false (MFmt (Lit (u "Action failed: ") :: exn_msg e)))).
Proof.
  intros env a w h k ime v1 v2 e Hm Hk Ha Hime E1 E2 E3 He.
  rewrite (dispatch_kind env a w h k HType Hm Ha)
    by (destruct Hk as [<- | [<- | []]]; reflexivity).
  unfold catch_exception. cbn [run_handler]. unfold handle_type, sleep, mbind, ext, mret.
  rewrite Hime, E1, E2, E3. cbn [app]. rewrite He. reflexivity.
Qed.

Lemma execute_type_failure_keeps_keyboard_witness :
  dispatch adb_fail_env type_act 1080 2400 =
    ([CSetKeyboard; CSleep (Fin 1); CClearText; CSleep (Fin 1);
      CTypeText (get type_act "text" (PStr []))],
     Ok (AR false false (MFmt (Lit (u "Action failed: ") :: exn_msg adb_error)))).
Proof.
  apply (execute_type_failure_keeps_keyboard adb_fail_env type_act 1080 2400 "Type_Name"
           (PStr (u "com.android.adbkeyboard/.AdbIME")) PNone PNone adb_error);
    try reflexivity. right; left; reflexivity.
Defined.



(** A [Wait] whose [duration] is present but not a string fails on
    [.replace] before any sleep: the [AttributeError] is caught by
    [execute] and reported as [Action failed: ...]. *)
Theorem execute_wait_non_text_duration : forall env a w h v,
  get a "_metadata" PNone = PStr (u "do") -> get a "action" PNone = PStr (u "Wait") ->
  dget a (u "duration") = Some v -> (forall s, v <> PStr s) ->
  dispatch env a w h =
    ([], Ok (AR false false (MFmt [Lit (u "Action failed: "); Lit (u "'"); Lit (u (type_name v));
                                   Lit (u "' object has no attribute 'replace'")]))).
Proof.
  intros env a w h v Hm Ha Hd Hv.
  rewrite (dispatch_kind env a w h "Wait" HWait Hm Ha) by reflexivity.
  unfold catch_exception. cbn [run_handler]. unfold handle_wait, mbind, lift.
  unfold get at 1. rewrite Hd.
  destruct v; try (exfalso; eapply Hv; reflexivity); reflexivity.
Qed.

Lemma execute_wait_non_text_duration_witness :
  dispatch quiet_env (wait_act (PInt 5)) 1080 2400 =
    ([], Ok (AR false false (MFmt [Lit (u "Action failed: "); Lit (u "'"); Lit (u (type_name (PInt 5)));
                                   Lit (u "' object has no attribute 'replace'")]))).
Proof.
  apply (execute_wait_non_text_duration quiet_env (wait_act (PInt 5)) 1080 2400 (PInt 5));
    [reflexivity | reflexivity | reflexivity | intros s; discriminate].
Defined.

(** [Note], [Call_API] and [Interact] call no collaborator at all and
    succeed without finishing; only [Interact] carries a message. *)
Theorem execute_no_device_kinds : forall env a w h k,
  get a "_metadata" PNone = PStr (u "do") ->
  In k ["Note"; "Call_API"; "Interact"]%string -> get a "action" PNone = PStr (u k) ->
  dispatch env a w h =
    ([], Ok (AR true false (if String.eqb k "Interact" then lit "User interaction required"
                            else MVal PNone))).
Proof.
  intros env a w h k Hm Hk Ha.
  destruct Hk as [<- | [<- | [<- | []]]];
  [ rewrite (dispatch_kind env a w h _ HNote Hm Ha) by reflexivity
  | rewrite (dispatch_kind env a w h _ HCallAPI Hm Ha) by reflexivity
  | rewrite (dispatch_kind env a w h _ HInteract Hm Ha) by reflexivity ]; reflexivity.
Qed.

Lemma execute_no_device_kinds_witness :
  dispatch adb_fail_env (kind_act "Interact") 1080 2400 =
    ([], Ok (AR true false (if String.eqb "Interact" "Interact" then lit "User interaction required"
                            else MVal PNone))).
Proof.
  apply (execute_no_device_kinds adb_fail_env (kind_act "Interact") 1080 2400 "Interact");
    [reflexivity | right; right; left; reflexivity | reflexivity].
Defined.

(** [Back] and [Home] make exactly one device call; its [Exception] becomes
    an [Action failed] result, anything else it raises propagates. *)
Theorem execute_back_home : forall env a w h k c,
  get a "_metadata" PNone = PStr (u "do") ->
  (k, c) = ("Back"%string, CBack) \/ (k, c) = ("Home"%string, CHome) ->
  get a "action" PNone = PStr (u k) ->
  dispatch env a w h =
    ([c], match env c with
          | Ok _ => Ok (AR true false (MVal PNone))
          | Raise e => if is_Exception e
                       then Ok (AR false false (MFmt (Lit (u "Action failed: ") :: exn_msg e)))
                       else Raise e
          end).
Proof.
  intros env a w h k c Hm Hk Ha.
  assert (Hh : get_handler (PStr (u k)) = Ok (Some (if String.eqb k "Back" then HBack else HHome))
            /\ run_handler env (if String.eqb k "Back" then HBack else HHome) a w h =
                 ext env c ;;; mret (AR true false (MVal PNone))).
  { destruct Hk as [Hk | Hk]; injection Hk; intros -> ->; split; reflexivity. }
  destruct Hh as [Hh Hr].
  rewrite (dispatch_kind env a w h _ _ Hm Ha Hh), Hr.
  unfold catch_exception, mbind, ext, mret; cbn [app].
  destruct (env c) as [v|e]; [reflexivity|]. destruct (is_Exception e); reflexivity.
Qed.

Lemma execute_back_home_witness :
  dispatch adb_fail_env (kind_act "Back") 1080 2400 =
    ([CBack], match adb_fail_env CBack with
              | Ok _ => Ok (AR true false (MVal PNone))
              | Raise e => if is_Exception e
                           then Ok (AR false false (MFmt (Lit (u "Action failed: ") :: exn_msg e)))
                           else Raise e
              end).
Proof.
  apply (execute_back_home adb_fail_env (kind_act "Back") 1080 2400 "Back" CBack);
    [reflexivity | left; reflexivity | reflexivity].
Defined.





(** A [do] action whose [action] is a string naming no handler yields
    [Unknown action: <name>] with no call, and does not finish. *)
Theorem execute_unknown_kind_name : forall env a w h s,
  get a "_metadata" PNone = PStr (u "do") -> get a "action" PNone = PStr s ->
  (forall k, In k (map fst handlers) -> str_eqb s (u k) = false) ->
  dispatch env a w h =
    ([], Ok (AR false false (MFmt [Lit (u "Unknown action: "); Val (PStr s)]))).
Proof.
  intros env a w h s Hm Ha Hk. rewrite <- Ha.
  apply execute_unknown_kind_hashable; [exact Hm | rewrite Ha; reflexivity |].
  intros k Hin. rewrite Ha. exact (Hk k Hin).
Qed.

Lemma execute_unknown_kind_name_witness :
  dispatch quiet_env (kind_act "Scroll") 1080 2400 =
    ([], Ok (AR false false (MFmt [Lit (u "Unknown action: "); Val (PStr (u "Scroll"))]))).
Proof.
  apply (execute_unknown_kind_name quiet_env (kind_act "Scroll") 1080 2400 (u "Scroll"));
    [reflexivity | reflexivity |].
  intros k Hk.
  assert (F : forallb (fun k => negb (str_eqb (u "Scroll") (u k))) (map fst handlers) = true)
    by (vm_compute; reflexivity).
  rewrite forallb_forall in F. apply negb_true_iff. exact (F k Hk).
Defined.



Lemma lstrip_nonspace : forall s, Forall (fun c => is_space c = false) s -> lstrip s = s.
Proof. intros [|c s] H; [reflexivity|]. inversion H; subst. cbn [lstrip]. now rewrite H2. Qed.

Lemma strip_nonspace : forall s, Forall (fun c => is_space c = false) s -> strip s = s.
Proof.
  intros s H. unfold strip. rewrite (lstrip_nonspace s H), lstrip_nonspace.
  - apply rev_involutive.
  - apply Forall_rev. exact H.
Qed.

Lemma digit_char : forall d, 0 <= d <= 9 -> is_digit (48 + d) = true.
Proof. intros d Hd. unfold is_digit. apply andb_true_iff. split; apply Z.leb_le; lia. Qed.

Lemma num_text_nonspace : forall (neg : bool) ds, Forall (fun e => 0 <= e <= 9) ds ->
  Forall (fun c => is_space c = false) (num_text neg ds).
Proof.
  intros neg ds H. unfold num_text. apply Forall_app. split.
  - destruct neg; repeat constructor.
  - apply Forall_map. eapply Forall_impl; [|exact H]. intros d Hd. cbv beta.
    cbv beta in Hd. digit_cases d; reflexivity.
Qed.

Lemma udigits_tail_digits : forall ds, Forall (fun e => 0 <= e <= 9) ds ->
  udigits_tail (map (fun e => 48 + e) ds) = Some ds.
Proof.
  induction ds as [|d ds IH]; intros H; [reflexivity|]. inversion H; subst.
  cbn [map udigits_tail]. rewrite digit_char by assumption. rewrite IH by assumption.
  cbn [option_map]. unfold digit_val. replace (48 + d - 48) with d by ring. reflexivity.
Qed.

Lemma int_of_str_num_text : forall (neg : bool) d ds, 0 <= d <= 9 -> Forall (fun e => 0 <= e <= 9) ds ->
  int_of_str (num_text neg (d :: ds)) = Ok (apply_sign neg (digits_value (d :: ds))).
Proof.
  intros neg d ds Hd Hds. unfold int_of_str.
  rewrite strip_nonspace by (apply num_text_nonspace; constructor; assumption).
  unfold num_text. cbn [map].
  assert (Ht : take_sign ((if neg then [45] else []) ++ 48 + d :: map (fun e => 48 + e) ds)
               = (neg, 48 + d :: map (fun e => 48 + e) ds)).
  { destruct neg; [reflexivity|]. cbn [app take_sign].
    replace (48 + d =? 45) with false by (symmetry; apply Z.eqb_neq; lia).
    replace (48 + d =? 43) with false by (symmetry; apply Z.eqb_neq; lia). reflexivity. }
  rewrite Ht. cbn [udigits]. rewrite digit_char, udigits_tail_digits by assumption.
  cbn [option_map]. unfold digit_val. replace (48 + d - 48) with d by ring. reflexivity.
Qed.

Lemma int_of_str_str_int : forall x, int_of_str (str_int x) = Ok x.
Proof.
  intros x. destruct (str_int_num x) as [neg [d [ds [E [Hd [_ [Hds Hv]]]]]]].
  rewrite E, int_of_str_num_text by assumption. now rewrite Hv.
Qed.

Lemma split_on_app : forall sep a b, ~ In sep a -> split_on sep (a ++ sep :: b) = a :: split_on sep b.
Proof.
  intros sep a b. induction a as [|c a IH]; intros Ha.
  - cbn. now rewrite Z.eqb_refl.
  - cbn [app split_on]. replace (c =? sep) with false
      by (symmetry; apply Z.eqb_neq; intros ->; apply Ha; left; reflexivity).
    rewrite IH by (intros H; apply Ha; right; exact H). reflexivity.
Qed.

Lemma str_int_chars : forall x c, In c (str_int x) -> c = 45 \/ 48 <= c <= 57.
Proof.
  intros x c. destruct (str_int_num x) as [neg [d [ds [E [Hd [_ [Hds _]]]]]]].
  rewrite E. unfold num_text. intros Hin. apply in_app_or in Hin as [Hin | Hin].
  - left. destruct neg; cbn in Hin; [destruct Hin as [<- | []]; reflexivity | destruct Hin].
  - right. apply in_map_iff in Hin as [e [<- He]].
    assert (0 <= e <= 9) by (destruct He as [<- | He]; [lia | rewrite Forall_forall in Hds; auto]).
    lia.
Qed.

Lemma str_int_lacks : forall x c, c <> 45 -> (c < 48 \/ 57 < c) -> ~ In c (str_int x).
Proof. intros x c H1 H2 Hin. destruct (str_int_chars x c Hin); lia. Qed.

Lemma json_loads_bare_pair : forall x y,
  exists m, json_loads (str_int x ++ [44; 32] ++ str_int y) = Raise (ValueError m).
Proof.
  intros x y.
  destruct (str_int_num x) as [nx [dx [dsx [Ex [Hdx [H0x [Hdsx Hvx]]]]]]].
  assert (Jx := json_number_digits nx dx dsx 44 (32 :: str_int y) Hdx H0x Hdsx (or_introl eq_refl)).
  rewrite Ex. unfold json_loads, num_text in *. cbn [map] in *.
  rewrite <- !app_assoc. cbn [app]. cbn [app] in Jx.
  rewrite num_skip_ws by exact Hdx.
  rewrite num_json_value, Jx by exact Hdx.
  exists [Lit (u "Extra data")]. reflexivity.
Qed.

Lemma decode_bare_pair : forall x y,
  decode_element (str_int x ++ u ", " ++ str_int y) = Ok (PList [PInt x; PInt y]).
Proof.
  intros x y. change (u ", ") with [44; 32]. unfold decode_element.
  destruct (json_loads_bare_pair x y) as [m Hm]. rewrite Hm.
  assert (N91 : ~ In 91 (str_int x ++ [44; 32] ++ str_int y)).
  { intros Hin. apply in_app_or in Hin as [Hin | Hin]; [exact (str_int_lacks x 91 ltac:(lia) ltac:(lia) Hin)|].
    destruct Hin as [H | [H | Hin]]; try lia. exact (str_int_lacks y 91 ltac:(lia) ltac:(lia) Hin). }
  assert (N93 : ~ In 93 (str_int x ++ [44; 32] ++ str_int y)).
  { intros Hin. apply in_app_or in Hin as [Hin | Hin]; [exact (str_int_lacks x 93 ltac:(lia) ltac:(lia) Hin)|].
    destruct Hin as [H | [H | Hin]]; try lia. exact (str_int_lacks y 93 ltac:(lia) ltac:(lia) Hin). }
  rewrite (replace_absent 91 (u "[") [] _ ltac:(vm_compute; tauto) N91).
  rewrite (replace_absent 93 (u "]") [] _ ltac:(vm_compute; tauto) N93).
  change (ch ",") with 44. cbn [app].
  rewrite split_on_app by (apply str_int_lacks; lia).
  rewrite split_on_absent by (intros [H | Hin]; [lia | exact (str_int_lacks y 44 ltac:(lia) ltac:(lia) Hin)]).
  assert (Ns : forall z, Forall (fun c => is_space c = false) (str_int z)).
  { intros z. destruct (str_int_num z) as [neg [d [ds [E [Hd [_ [Hds _]]]]]]].
    rewrite E. apply num_text_nonspace. constructor; assumption. }
  cbn [map_res]. rewrite (strip_nonspace _ (Ns x)), int_of_str_str_int.
  unfold strip at 1. cbn [lstrip]. change (is_space 32) with true. cbv iota.
  rewrite (lstrip_nonspace _ (Ns y)), lstrip_nonspace by (apply Forall_rev; apply Ns).
  rewrite rev_involutive, int_of_str_str_int. reflexivity.
Qed.

(** A point written as a bare [x, y] text, not valid JSON, is split on the
    comma and converted like the list [[x, y]]. *)
Theorem convert_bare_pair : forall x y w h, Z.abs x < 10 ^ 4300 -> Z.abs y < 10 ^ 4300 ->
  convert_relative_to_absolute (PStr (str_int x ++ u ", " ++ str_int y)) w h =
  convert_relative_to_absolute (PList [PInt x; PInt y]) w h.
Proof.
  intros x y w h _ _. unfold convert_relative_to_absolute at 1.
  cbn [rbind]. rewrite decode_bare_pair. reflexivity.
Qed.

Lemma convert_bare_pair_witness :
  convert_relative_to_absolute (PStr (str_int (-7) ++ u ", " ++ str_int 1234)) 1080 2400 =
  convert_relative_to_absolute (PList [PInt (-7); PInt 1234]) 1080 2400.
Proof. exact (convert_bare_pair (-7) 1234 1080 2400 bound_7 bound_1234). Defined.








Lemma wait_heuristic_raise : forall s e, wait_heuristic s = Some (Raise e) ->
  e = ValueError [Lit (u "Failed to parse action: "); Lit (u "无法解析动作格式: "); Val (PStr s)].
Proof.
  intros s e H. unfold wait_heuristic in H.
  destruct (contains (lower s) (u "wait") || contains s (u "等待") || contains s (u "加载") ||
            contains (lower s) (u "loading") || contains s (u "刷新")).
  - destruct (dur_search unit_miao s) as [[g|]|]; cbn [obind] in H; try discriminate.
    destruct (dur_search unit_second s) as [m|]; cbn [obind] in H; discriminate.
  - injection H as <-. reflexivity.
Qed.

(** [parse_action] raises only when no action was parsed and the wait
    heuristic does not apply, and then always with the nested message
    [Failed to parse action: ...] on the cleaned response. *)
Theorem parse_action_raises_value_error : forall r out e,
  parse_action r = Some (out, Raise e) ->
  parsed_actions r = Some (out, []) /\
  e = ValueError [Lit (u "Failed to parse action: "); Lit (u "无法解析动作格式: "); Val (PStr (clean r))].
Proof.
  intros r out e. unfold parse_action.
  generalize (wait_heuristic_raise (clean r)).
  generalize (wait_heuristic (clean r)) as o.
  generalize (clean r) as cr. generalize (parsed_actions r) as pa.
  intros pa cr o HW H.
  destruct pa as [[out' ps]|]; [|discriminate]. cbn [obind] in H.
  destruct ps as [|p [|p' ps]]; [|discriminate|discriminate].
  destruct o as [[v|e']|]; cbn [option_map] in H; try discriminate.
  injection H as <- <-. split; [reflexivity|]. exact (HW e' eq_refl).
Qed.

Lemma parse_action_raises_value_error_witness :
  parsed_actions (u "hello") = Some ([], []) /\
  ValueError [Lit (u "Failed to parse action: "); Lit (u "无法解析动作格式: "); Val (PStr (u "hello"))] =
  ValueError [Lit (u "Failed to parse action: "); Lit (u "无法解析动作格式: "); Val (PStr (clean (u "hello")))].
Proof.
  apply parse_action_raises_value_error. vm_compute. reflexivity.
Defined.

Lemma class_run_nondigit : forall c s, re_digit c = Some false ->
  class_run re_digit (c :: s) = Some ([], c :: s).
Proof. intros c s H. cbn [class_run]. now rewrite H. Qed.

Lemma dur_search_no_digit : forall unit_at s, Forall (fun c => re_digit c = Some false) s ->
  dur_search unit_at s = Some None.
Proof.
  intros unit_at s H. induction H as [|c s Hc H IH]; [reflexivity|].
  cbn [dur_search]. unfold dur_match. rewrite class_run_nondigit by exact Hc.
  cbn [obind]. exact IH.
Qed.

(** When no action parses, a response that mentions waiting or loading and
    contains no digit becomes a [Wait] of [2 seconds]. *)
Theorem parse_action_wait_default : forall r out,
  parsed_actions r = Some (out, []) ->
  contains (lower (clean r)) (u "wait") || contains (clean r) (u "等待") ||
  contains (clean r) (u "加载") || contains (lower (clean r)) (u "loading") ||
  contains (clean r) (u "刷新") = true ->
  Forall (fun c => re_digit c = Some false) (clean r) ->
  parse_action r = Some (out, Ok (wait_dict "2 seconds")).
Proof.
  intros r out Hp Hw Hd. unfold parse_action. rewrite Hp. cbn [obind].
  unfold wait_heuristic. rewrite Hw.
  rewrite !dur_search_no_digit by exact Hd. reflexivity.
Qed.

Lemma parse_action_wait_default_witness :
  parse_action (u "Loading...") = Some ([], Ok (wait_dict "2 seconds")).
Proof.
  apply (parse_action_wait_default (u "Loading...") []);
    [vm_compute; reflexivity | vm_compute; reflexivity |].
  apply nondigit_check. vm_compute. reflexivity.
Defined.

Lemma str_eqb_true : forall a b, str_eqb a b = true -> a = b.
Proof.
  induction a as [|x a IH]; intros [|y b] H; cbn in H; try discriminate; [reflexivity|].
  apply andb_true_iff in H as [Hx Hab]. apply Z.eqb_eq in Hx. subst. f_equal. exact (IH _ Hab).
Qed.

Lemma dget_dict_set_same : forall d k v, dget (dict_set d k v) k = Some v.
Proof.
  induction d as [|[k' v'] d IH]; intros k v; cbn.
  - now rewrite str_eqb_refl.
  - destruct (str_eqb k k') eqn:E; cbn.
    + rewrite E. reflexivity.
    + rewrite E. apply IH.
Qed.

Lemma dget_dict_set_other : forall d k v k', str_eqb k' k = false ->
  dget (dict_set d k v) k' = dget d k'.
Proof.
  induction d as [|[k0 v0] d IH]; intros k v k' H; cbn.
  - now rewrite H.
  - destruct (str_eqb k k0) eqn:E; cbn.
    + apply str_eqb_true in E. subst k0. now rewrite H.
    + destruct (str_eqb k' k0); [reflexivity|]. apply IH. exact H.
Qed.

(** [do] and [finish] called with keyword arguments only return the
    arguments as a dict whose [_metadata] is their own name, overriding a
    [_metadata] argument, with every other key as given. *)
Theorem kwargs_only_sets_metadata : forall name args out,
  (forall a, In a args -> fst a <> None) ->
  exists d, kwargs_only name args out = Some (out, Ok (PDict d)) /\
    dget d (u "_metadata") = Some (PStr name) /\
    (forall k, str_eqb k (u "_metadata") = false -> dget d k = dget (kw_pairs args) k).
Proof.
  intros name args out H.
  assert (E : filter (fun a => match fst a with None => true | Some _ => false end) args = []).
  { clear -H. induction args as [|[[k|] v] args IH]; cbn; [reflexivity| |].
    - apply IH. intros a Ha. apply H. right. exact Ha.
    - exfalso. apply (H (None, v)); [left; reflexivity|reflexivity]. }
  unfold kwargs_only. rewrite E. cbn -[dict_set].
  eexists. split; [reflexivity|]. split.
  - apply dget_dict_set_same.
  - intros k Hk. apply dget_dict_set_other. exact Hk.
Qed.

Lemma kwargs_only_sets_metadata_witness :
  exists d, kwargs_only (u "do") [(Some (u "action"), PStr (u "Back")); (Some (u "_metadata"), PStr (u "finish"))] [] =
              Some ([], Ok (PDict d)) /\
    dget d (u "_metadata") = Some (PStr (u "do")) /\
    (forall k, str_eqb k (u "_metadata") = false ->
       dget d k = dget (kw_pairs [(Some (u "action"), PStr (u "Back")); (Some (u "_metadata"), PStr (u "finish"))]) k).
Proof.
  apply kwargs_only_sets_metadata. intros a [<-|[<-|[]]]; discriminate.
Defined.

(** [do] and [finish] refuse a positional argument with a [TypeError]. *)
Theorem kwargs_only_positional : forall name args out,
  (exists a, In a args /\ fst a = None) ->
  exists m, kwargs_only name args out = Some (out, Raise (TypeError m)).
Proof.
  intros name args out [a [Ha Hn]].
  assert (L : (0 < List.length (filter (fun a => match fst a with None => true | Some _ => false end) args))%nat).
  { destruct (filter _ args) eqn:F; [|cbn; lia].
    assert (Hin : In a (filter (fun a => match fst a with None => true | Some _ => false end) args)).
    { apply filter_In. split; [exact Ha|]. now rewrite Hn. }
    rewrite F in Hin. destruct Hin. }
  unfold kwargs_only.
  replace (0 <? Z.of_nat _) with true by (symmetry; apply Z.ltb_lt; lia).
  eexists. reflexivity.
Qed.

Lemma kwargs_only_positional_witness :
  exists m, kwargs_only (u "finish") [(None, PStr (u "Done"))] [] = Some ([], Raise (TypeError m)).
Proof.
  apply kwargs_only_positional. exists (None, PStr (u "Done")). split; [left|]; reflexivity.
Defined.
